(** * Learned-DFA normalisation: the driver of
      [hypothesis/internal/conjecture/shrinking/dfas.py] and the automaton
      model it relies on.

    The development embeds [normalize] and [update_learned_dfas] as they
    are written in [dfas.py].  The order [sort_key], which [normalize]
    imports from a module whose source is not part of the tree, is modelled
    from the specification. *)

From Stdlib Require Import ZArith NArith Lia.
From Stdlib.Strings Require Import Byte Ascii String.
From stdpp Require Import base numbers countable option list gmap sorting.

Local Open Scope Z_scope.

(** ** Python values *)

#[global] Instance byte_eq_dec : EqDecision byte := Byte.byte_eq_dec.

(** [bytes]: an immutable sequence of integers in [0, 255]. *)
Abbreviation bytes := (list byte).

(** [str]: a sequence of Unicode code points. *)
Abbreviation str := (list N).

(** Why [FailedToNormalise] is raised: the two [raise] statements of
    [normalize]. *)
Inductive failure :=
| NotAllowedToLearn (v u : bytes)       (* lines 155-159 *)
| TooHardToLearn.                       (* lines 161-164 *)

(** Exceptions the modelled code can raise. *)
Inductive exn :=
| IndexError
| ValueError
| AssertionError
| FailedToNormalise (why : failure).

(** Result of running a piece of Python: a value, an exception, or a loop
    that was not finished within the fuel given to it. *)
Inductive res (A : Type) :=
| Ok (a : A)
| Raise (e : exn)
| Timeout.
Arguments Ok {A} a.
Arguments Raise {A} e.
Arguments Timeout {A}.

#[global] Instance res_bind : MBind res := fun A B k m =>
  match m with
  | Ok a => k a
  | Raise e => Raise e
  | Timeout => Timeout
  end.

(** [assert c] *)
Definition assert (c : bool) : res unit :=
  if c then Ok tt else Raise AssertionError.

Module Py.
Section Seq.
Context {A : Type} `{EqDecision A}.

Definition len (l : list A) : Z := Z.of_nat (length l).

(** [l[i]]: negative indices count from the end, anything outside the
    sequence raises [IndexError]. *)
Definition index (l : list A) (i : Z) : res A :=
  let j := if i <? 0 then len l + i else i in
  if (j <? 0) || (len l <=? j) then Raise IndexError
  else match l !! Z.to_nat j with
       | Some x => Ok x
       | None => Raise IndexError
       end.

(** Bound of a slice: negative bounds count from the end, then the bound
    is clamped to [0, len l]. *)
Definition clamp (l : list A) (i : Z) : nat :=
  let j := if i <? 0 then len l + i else i in
  Z.to_nat (Z.min (Z.max j 0) (len l)).

(** [l[lo:hi]] *)
Definition slice (l : list A) (lo hi : Z) : list A :=
  take (clamp l hi - clamp l lo)%nat (drop (clamp l lo) l).

(** [l[lo:]] *)
Definition slice_from (l : list A) (lo : Z) : list A :=
  drop (clamp l lo) l.

(** [l[:hi]] *)
Definition slice_to (l : list A) (hi : Z) : list A :=
  take (clamp l hi) l.

Fixpoint startswith (l p : list A) : bool :=
  match p, l with
  | [], _ => true
  | _ :: _, [] => false
  | y :: p', x :: l' => bool_decide (x = y) && startswith l' p'
  end.

Definition endswith (l s : list A) : bool :=
  startswith (reverse l) (reverse s).

Definition eqb (l k : list A) : bool := bool_decide (l = k).
End Seq.
End Py.

(** Modelled from the spec: [sort_key] of the shrinker, which is imported by
    [normalize] but whose source is absent.  The order on buffers is
    shortlex: shorter buffers first, buffers of one length by their bytes. *)
Fixpoint lex_ltb (u v : bytes) : bool :=
  match u, v with
  | [], [] => false
  | [], _ :: _ => true
  | _ :: _, [] => false
  | a :: u', b :: v' =>
      (Byte.to_nat a <? Byte.to_nat b)%nat
      || (bool_decide (a = b) && lex_ltb u' v')
  end.

Definition sort_key_ltb (u v : bytes) : bool :=
  (length u <? length v)%nat
  || ((length u =? length v)%nat && lex_ltb u v).

(** [sorted((a, b), key=sort_key)]: the sort is stable, so the pair is
    swapped only when the second key is strictly smaller. *)
Definition sorted_pair (a b : bytes) : bytes * bytes :=
  if sort_key_ltb b a then (b, a) else (a, b).

(** ** Peeling the common prefix and suffix (lines 168-198 of [normalize]) *)

Module Strip.

(** [i = 0; while u[i] == v[i]: i += 1] *)
Fixpoint prefix_loop (fuel : nat) (u v : bytes) (i : Z) : res Z :=
  match fuel with
  | O => Timeout
  | S fuel' =>
      a ← Py.index u i;
      b ← Py.index v i;
      if bool_decide (a = b) then prefix_loop fuel' u v (i + 1) else Ok i
  end.

(** [i = 1; while u[-i] == v[-i]: i += 1] *)
Fixpoint suffix_loop (fuel : nat) (u v : bytes) (i : Z) : res Z :=
  match fuel with
  | O => Timeout
  | S fuel' =>
      a ← Py.index u (- i);
      b ← Py.index v (- i);
      if bool_decide (a = b) then suffix_loop fuel' u v (i + 1) else Ok i
  end.

Record cores := {
  prefix : bytes;
  suffix : bytes;
  u_core : bytes;
  v_core : bytes;
}.

(** Lines 168 to 198, for the pair [(u, v)] as ordered by [sorted]. *)
Definition strip (fuel : nat) (u v : bytes) : res cores :=
  assert (negb (Py.startswith v u));;
  i ← prefix_loop fuel u v 0;
  let prefix := Py.slice_to u i in
  assert (Py.startswith u prefix);;
  assert (Py.startswith v prefix);;
  i ← suffix_loop fuel u v 1;
  let suffix := Py.slice_from u (Py.len u + 1 - i) in
  assert (Py.endswith u suffix);;
  assert (Py.endswith v suffix);;
  let u_core := Py.slice u (Py.len prefix) (Py.len u - Py.len suffix) in
  let v_core := Py.slice v (Py.len prefix) (Py.len v - Py.len suffix) in
  assert (Py.eqb u (prefix ++ u_core ++ suffix));;
  assert (Py.eqb v (prefix ++ v_core ++ suffix));;
  Ok {| prefix := prefix; suffix := suffix;
        u_core := u_core; v_core := v_core |}.

(** Both loops stop, by a mismatch or by [IndexError], within
    [len(u) + 1] iterations. *)
Definition enough (u : bytes) : nat := S (length u).

End Strip.

(** *** The peeling loops always stop *)

Section StripTotal.
Import Strip.

Lemma index_out_of_range {A} (l : list A) (i : Z) :
  Py.len l <= i -> Py.index l i = Raise IndexError.
Proof.
  intros Hi. unfold Py.index, Py.len in *.
  destruct (i <? 0) eqn:Hneg; [lia|].
  replace (Z.of_nat (length l) <=? i) with true by (symmetry; lia).
  now rewrite orb_true_r.
Qed.

Lemma index_before_start {A} (l : list A) (i : Z) :
  Py.len l < i -> Py.index l (- i) = Raise IndexError.
Proof.
  intros Hi. unfold Py.index, Py.len in *.
  replace (- i <? 0) with true by (symmetry; lia).
  replace (Z.of_nat (length l) + - i <? 0) with true by (symmetry; lia).
  reflexivity.
Qed.

Lemma index_returns {A} (l : list A) (i : Z) : Py.index l i <> Timeout.
Proof.
  unfold Py.index. destruct (_ || _); [discriminate|].
  destruct (l !! _); discriminate.
Qed.

Lemma prefix_loop_stops (fuel : nat) (u v : bytes) (i : Z) :
  0 <= i <= Py.len u -> Py.len u - i < Z.of_nat fuel ->
  prefix_loop fuel u v i <> Timeout.
Proof.
  revert i. induction fuel as [|fuel IH]; intros i H0 Hf; [lia|].
  cbn [prefix_loop]. destruct (Z_lt_le_dec i (Py.len u)) as [Hlt|Hge].
  - pose proof (index_returns u i). pose proof (index_returns v i).
    destruct (Py.index u i); cbn; try done.
    destruct (Py.index v i); cbn; try done.
    case_bool_decide; [apply IH; lia | discriminate].
  - rewrite (index_out_of_range u i) by lia. discriminate.
Qed.

Lemma suffix_loop_stops (fuel : nat) (u v : bytes) (i : Z) :
  1 <= i <= Py.len u + 1 -> Py.len u + 1 - i < Z.of_nat fuel ->
  suffix_loop fuel u v i <> Timeout.
Proof.
  revert i. induction fuel as [|fuel IH]; intros i H0 Hf; [lia|].
  cbn [suffix_loop]. destruct (Z_le_gt_dec i (Py.len u)) as [Hle|Hgt].
  - pose proof (index_returns u (- i)). pose proof (index_returns v (- i)).
    destruct (Py.index u (- i)); cbn; try done.
    destruct (Py.index v (- i)); cbn; try done.
    case_bool_decide; [apply IH; lia | discriminate].
  - rewrite (index_before_start u i) by lia. discriminate.
Qed.

Lemma bind_returns {B C} (m : res B) (k : B -> res C) :
  m <> Timeout -> (forall b, k b <> Timeout) -> m ≫= k <> Timeout.
Proof. destruct m; cbn; [auto | discriminate | congruence]. Qed.

Lemma assert_returns (c : bool) : assert c <> Timeout.
Proof. destruct c; discriminate. Qed.

(** With [len(u) + 1] iterations allowed, the peeling either returns the
    four pieces or raises: the model never runs out of fuel. *)
Lemma strip_stops (u v : bytes) : strip (enough u) u v <> Timeout.
Proof.
  unfold strip, enough.
  repeat first
    [ apply prefix_loop_stops; unfold Py.len; lia
    | apply suffix_loop_stops; unfold Py.len; lia
    | apply assert_returns
    | apply bind_returns; [| intros ? ]
    | progress cbv zeta
    | discriminate ].
Qed.
End StripTotal.

(** C1 (defect in the code).  The two buffers [u = 01] and [v = 00 01] are
    ordered by [sort_key] and [v] does not start with [u], yet the suffix
    loop reads [u[-2]] and raises [IndexError]; for [u = 00 00 00] and
    [v = 00 00 01 00 00] the common prefix and the common suffix overlap in
    [u] and the assertion [u == prefix + u_core + suffix] fails. *)
Theorem strip_out_of_range_and_overlap :
  let u1 := ["001"%byte] in
  let v1 := ["000"%byte; "001"%byte] in
  let u2 := ["000"%byte; "000"%byte; "000"%byte] in
  let v2 := ["000"%byte; "000"%byte; "001"%byte; "000"%byte; "000"%byte] in
  (sorted_pair v1 u1 = (u1, v1) /\ sorted_pair u1 v1 = (u1, v1)
   /\ Py.startswith v1 u1 = false
   /\ Strip.strip (Strip.enough u1) u1 v1 = Raise IndexError)
  /\
  (sorted_pair v2 u2 = (u2, v2) /\ sorted_pair u2 v2 = (u2, v2)
   /\ Py.startswith v2 u2 = false
   /\ Strip.prefix_loop (Strip.enough u2) u2 v2 0 = Ok 2
   /\ Strip.suffix_loop (Strip.enough u2) u2 v2 1 = Ok 3
   /\ Strip.strip (Strip.enough u2) u2 v2 = Raise AssertionError).
Proof. vm_compute. repeat split. Qed.

(** ** The learned-DFA file ([update_learned_dfas], lines 41-68) *)

(** A Python string literal, as code points. *)
Definition lit (s : string) : str :=
  (fun a => N_of_ascii a) <$> list_ascii_of_string s.

Module Text.

(** Code points at which [str.splitlines] breaks a line (a carriage
    return followed by a line feed counts once). *)
Definition is_line_boundary (c : N) : bool :=
  bool_decide (c ∈ [10; 11; 12; 13; 28; 29; 30; 133; 8232; 8233]%N).

(** [s.splitlines()], with [cur] the line being read. *)
Fixpoint splitlines_from (cur : str) (s : str) : list str :=
  match s with
  | [] => match cur with [] => [] | _ => [cur] end
  | c :: s' =>
      if is_line_boundary c then
        match s' with
        | d :: s'' =>
            if (c =? 13)%N && (d =? 10)%N
            then cur :: splitlines_from [] s''
            else cur :: splitlines_from [] s'
        | [] => [cur]
        end
      else splitlines_from (cur ++ [c]) s'
  end.

Definition splitlines (s : str) : list str := splitlines_from [] s.

(** ["\n".join(lines)] *)
Fixpoint join (lines : list str) : str :=
  match lines with
  | [] => []
  | [l] => l
  | l :: ls => l ++ 10%N :: join ls
  end.

(** [lines.index(x)]: the first position of [x], [ValueError] if there is
    none. *)
Definition index_of (lines : list str) (x : str) : res nat :=
  match list_find (fun l => l = x) lines with
  | Some (i, _) => Ok i
  | None => Raise ValueError
  end.

(** Comparison of strings: lexicographic on code points. *)
Fixpoint ltb (a b : str) : bool :=
  match a, b with
  | [], [] => false
  | [], _ :: _ => true
  | _ :: _, [] => false
  | x :: a', y :: b' => (x <? y)%N || ((x =? y)%N && ltb a' b')
  end.

Definition le (a b : str) : Prop := ltb b a = false.

End Text.

(** The module-level state [normalize] works on: the registry
    [SHRINKING_DFAS] and the file it is saved in. *)
Record world (DFA : Type) := World {
  SHRINKING_DFAS : gmap str DFA;
  learned_dfa_file : str;          (* contents of the file *)
  writes : nat;                    (* times the file was opened for writing *)
}.
Arguments World {DFA}.
Arguments SHRINKING_DFAS {DFA}.
Arguments learned_dfa_file {DFA}.
Arguments writes {DFA}.

Module Persist.
Section Persist.
Context {DFA : Type}.
(** [repr] of a registry name and of an automaton: [%r] in line 59. *)
Variable repr_name : str -> str.
Variable repr_dfa : DFA -> str.

Definition marker : str := lit "# AUTOGENERATED BEGINS".

Definition item_le (a b : str * DFA) : Prop := Text.le a.1 b.1.

#[local] Instance item_le_dec : RelDecision item_le.
Proof. intros a b. unfold item_le, Text.le. apply _. Defined.

(** [sorted(SHRINKING_DFAS.items())]: the keys of a dictionary are
    distinct, so the pairs are ordered by their names alone. *)
Definition sorted_items (reg : gmap str DFA) : list (str * DFA) :=
  merge_sort item_le (map_to_list reg).

(** ["SHRINKING_DFAS[%r] = %r # noqa: E501" % (k, v)] *)
Definition entry (kv : str * DFA) : str :=
  lit "SHRINKING_DFAS[" ++ repr_name kv.1 ++ lit "] = "
    ++ repr_dfa kv.2 ++ lit " # noqa: E501".

(** The lines of the new file, from the lines read and the position of
    the marker (lines 52-62). *)
Definition new_lines (lines : list str) (i : nat)
    (reg : gmap str DFA) : list str :=
  take (i + 1) lines
    ++ [lit ""; lit "# fmt: off"; lit ""]
    ++ (entry <$> sorted_items reg)
    ++ [lit ""; lit "# fmt: on"].

Definition update_learned_dfas (w : world DFA) : res (world DFA) :=
  let source := learned_dfa_file w in
  let lines := Text.splitlines source in
  i ← Text.index_of lines marker;
  let lines := new_lines lines i (SHRINKING_DFAS w) in
  let new_source := Text.join lines ++ [10%N] in
  if bool_decide (new_source ≠ source) then
    Ok (World (SHRINKING_DFAS w) new_source (S (writes w)))
  else Ok w.
End Persist.
End Persist.
Export Persist.

(** ** Properties of [update_learned_dfas] *)

Section TextFacts.
Import Text.

Lemma ltb_asym (a : str) : forall b, ltb a b = true -> ltb b a = false.
Proof.
  induction a as [|x a IH]; intros [|y b]; cbn; try done.
  destruct (N.ltb_spec x y), (N.ltb_spec y x), (N.eqb_spec x y),
    (N.eqb_spec y x); cbn; try lia; try done.
  apply IH.
Qed.

Lemma le_trans (a : str) : forall b c, le a b -> le b c -> le a c.
Proof.
  unfold le. induction a as [|x a IH]; intros [|y b] [|z c]; cbn;
    try done.
  destruct (N.ltb_spec y x), (N.ltb_spec z y), (N.ltb_spec z x),
    (N.eqb_spec y x), (N.eqb_spec z y), (N.eqb_spec z x);
    cbn; try lia; try done.
  apply IH.
Qed.

Lemma le_total (a b : str) : le a b \/ le b a.
Proof.
  unfold le. destruct (ltb a b) eqn:E; [|auto].
  left. apply ltb_asym. exact E.
Qed.

Lemma le_antisym (a : str) : forall b, le a b -> le b a -> a = b.
Proof.
  unfold le. induction a as [|x a IH]; intros [|y b]; cbn; try done.
  destruct (N.ltb_spec y x), (N.ltb_spec x y), (N.eqb_spec y x),
    (N.eqb_spec x y); cbn; try lia; try done.
  intros. subst. f_equal. apply IH; assumption.
Qed.

(** A line: a string without line boundaries. *)
Definition is_line (l : str) : Prop :=
  Forall (fun c => is_line_boundary c = false) l.

Lemma splitlines_from_line (l : str) : forall cur rest,
  is_line l ->
  splitlines_from cur (l ++ 10%N :: rest)
  = (cur ++ l) :: splitlines_from [] rest.
Proof.
  induction l as [|c l IH]; intros cur rest Hl.
  - cbn [app splitlines_from]. rewrite app_nil_r.
    change (is_line_boundary 10%N) with true. cbv iota.
    destruct rest; reflexivity.
  - inversion Hl as [|? ? Hc Hl']; subst.
    cbn [app splitlines_from]. rewrite Hc.
    rewrite IH by exact Hl'. rewrite <- app_assoc. reflexivity.
Qed.

Lemma splitlines_from_lines (s : str) : forall cur,
  is_line cur -> Forall is_line (splitlines_from cur s).
Proof.
  induction s as [s IH] using (induction_ltof1 _ (@length N));
    unfold ltof in *.
  intros cur Hcur. destruct s as [|c s].
  - cbn. destruct cur; [constructor|].
    constructor; [exact Hcur | constructor].
  - cbn [splitlines_from].
    destruct (is_line_boundary c) eqn:Hc.
    + assert (Hrest : Forall is_line (cur :: splitlines_from [] s)).
      { constructor; [exact Hcur|]. apply IH; [cbn; lia | constructor]. }
      destruct s as [|d s]; [exact Hrest|].
      destruct (_ && _); [|exact Hrest].
      constructor; [exact Hcur|]. apply IH; [cbn; lia | constructor].
    + apply IH; [cbn; lia|]. apply Forall_app. split; [exact Hcur|].
      constructor; [exact Hc | constructor].
Qed.

Lemma splitlines_lines (s : str) : Forall is_line (splitlines s).
Proof. apply splitlines_from_lines. constructor. Qed.

(** Lines that are joined and ended by a line feed are read back as
    they were. *)
Lemma splitlines_join (ls : list str) :
  Forall is_line ls -> ls <> [] -> splitlines (join ls ++ [10%N]) = ls.
Proof.
  unfold splitlines. induction ls as [|l ls IH]; intros Hls Hne; [done|].
  inversion Hls as [|? ? Hl Hls']; subst.
  destruct ls as [|l' ls].
  - cbn [join]. rewrite splitlines_from_line by exact Hl. reflexivity.
  - change (join (l :: l' :: ls)) with (l ++ 10%N :: join (l' :: ls)).
    rewrite <- app_assoc. cbn [app].
    rewrite splitlines_from_line by exact Hl.
    cbn [app]. f_equal. apply IH; [exact Hls' | done].
Qed.

Lemma splitlines_join_prefix (ls1 ls2 : list str) :
  Forall is_line ls1 -> ls2 <> [] ->
  splitlines (join (ls1 ++ ls2) ++ [10%N])
  = ls1 ++ splitlines (join ls2 ++ [10%N]).
Proof.
  unfold splitlines. induction ls1 as [|l ls1 IH]; intros Hls Hne.
  - reflexivity.
  - inversion Hls as [|? ? Hl Hls']; subst.
    destruct (ls1 ++ ls2) as [|l' ls] eqn:Happ.
    { destruct ls1, ls2; done. }
    cbn [app]. rewrite Happ.
    change (join (l :: l' :: ls)) with (l ++ 10%N :: join (l' :: ls)).
    rewrite <- app_assoc. cbn [app].
    rewrite splitlines_from_line by exact Hl.
    cbn [app]. f_equal. apply IH; assumption.
Qed.
End TextFacts.

Section PersistFacts.
Context {DFA : Type}.
Variable repr_name : str -> str.
Variable repr_dfa : DFA -> str.

Local Abbreviation entry := (Persist.entry repr_name repr_dfa).
Local Abbreviation new_lines := (Persist.new_lines repr_name repr_dfa).
Local Abbreviation update_learned_dfas :=
  (Persist.update_learned_dfas repr_name repr_dfa).

#[local] Instance item_le_total : Total (@item_le DFA).
Proof. intros a b. apply le_total. Qed.

#[local] Instance item_le_trans : Transitive (@item_le DFA).
Proof. intros a b c. apply le_trans. Qed.

(** Names in the order of Python strings, strictly. *)
Definition name_lt (a b : str) : Prop := Text.ltb a b = true.

Lemma le_neq_lt (a b : str) : Text.le a b -> a <> b -> name_lt a b.
Proof.
  intros Hle Hne. unfold name_lt.
  destruct (Text.ltb a b) eqn:E; [reflexivity|].
  exfalso. apply Hne. apply le_antisym; assumption.
Qed.

Lemma sorted_items_perm (reg : gmap str DFA) :
  sorted_items reg ≡ₚ map_to_list reg.
Proof. apply merge_sort_Permutation. Qed.

Lemma sorted_items_names (reg : gmap str DFA) :
  StronglySorted name_lt (sorted_items reg).*1.
Proof.
  assert (Hnd : NoDup (sorted_items reg).*1).
  { rewrite sorted_items_perm. apply NoDup_fst_map_to_list. }
  assert (Hss : StronglySorted item_le (sorted_items reg))
    by apply (StronglySorted_merge_sort _).
  induction Hss as [|kv l Hss IH Hall]; [constructor|].
  cbn [fmap list_fmap] in *. apply NoDup_cons in Hnd as [Hnotin Hnd].
  constructor; [apply IH; exact Hnd|].
  apply Forall_fmap, Forall_forall. intros kv' Hin.
  rewrite Forall_forall in Hall.
  apply le_neq_lt; [apply Hall; exact Hin|].
  intros Heq. apply Hnotin. rewrite Heq.
  apply list_elem_of_fmap. exists kv'. auto.
Qed.

Lemma index_of_Ok (lines : list str) (x : str) (i : nat) :
  Text.index_of lines x = Ok i ->
  lines !! i = Some x /\ (forall j, (j < i)%nat -> lines !! j <> Some x).
Proof.
  unfold Text.index_of.
  destruct (list_find _ lines) as [[j l]|] eqn:Hf; [|discriminate].
  intros [= ->]. apply list_find_Some in Hf as (Hl & -> & Hbefore).
  split; [exact Hl|]. intros j Hj Hlj. eapply Hbefore; eauto.
Qed.

(** C9.  When the marker is line [i] of the file read,
    [update_learned_dfas] computes the new contents from the lines up to
    and including the marker, three fixed lines, one line per entry of
    the registry in the strict order of the names, and two closing lines.
    Read back, the new contents start with the same [i + 1] lines as the
    old ones.  The file is written, once, exactly when the new contents
    differ from the contents read; otherwise nothing changes.  The
    registry itself is never changed. *)
Theorem update_learned_dfas_rewrites_after_marker
    (w : world DFA) (i : nat) :
  let source := learned_dfa_file w in
  let lines := Text.splitlines source in
  let reg := SHRINKING_DFAS w in
  let new_source := Text.join (new_lines lines i reg) ++ [10%N] in
  Text.index_of lines marker = Ok i ->
  update_learned_dfas w
    = Ok (if bool_decide (new_source = source) then w
          else World reg new_source (S (writes w)))
  /\ lines !! i = Some marker
  /\ take (i + 1) (Text.splitlines new_source) = take (i + 1) lines
  /\ new_lines lines i reg
     = take (i + 1) lines
         ++ [lit ""; lit "# fmt: off"; lit ""]
         ++ (entry <$> sorted_items reg)
         ++ [lit ""; lit "# fmt: on"]
  /\ sorted_items reg ≡ₚ map_to_list reg
  /\ StronglySorted name_lt (sorted_items reg).*1
  /\ ((forall kv, is_line (entry kv)) ->
      Text.splitlines new_source = new_lines lines i reg).
Proof.
  intros source lines reg new_source Hi.
  pose proof (index_of_Ok _ _ _ Hi) as [Hmark _].
  assert (Hlen : (i < length lines)%nat) by (eapply lookup_lt_Some; eauto).
  assert (Hpre : Forall is_line (take (i + 1) lines)).
  { apply Forall_take. apply splitlines_lines. }
  repeat split.
  - unfold Persist.update_learned_dfas. fold source lines. rewrite Hi. cbn.
    fold reg new_source. case_bool_decide as Hd.
    + rewrite bool_decide_eq_false_2 by exact Hd. reflexivity.
    + rewrite bool_decide_eq_true_2 by exact Hd. reflexivity.
  - exact Hmark.
  - unfold new_source, Persist.new_lines.
    rewrite splitlines_join_prefix; [| exact Hpre | done].
    rewrite take_app_length' by (rewrite length_take; lia).
    reflexivity.
  - apply sorted_items_perm.
  - apply sorted_items_names.
  - intros Hentry. apply splitlines_join.
    + unfold Persist.new_lines. repeat apply Forall_app_2; try exact Hpre.
      * repeat constructor.
      * apply Forall_fmap, Forall_forall. intros kv _. apply Hentry.
      * repeat constructor.
    + unfold Persist.new_lines. destruct (take (i + 1) lines); done.
Qed.
End PersistFacts.

(** ** The normalisation driver ([normalize], lines 71-266) *)

(** [Status] of the engine, an integer enumeration in this order. *)
Inductive Status := OVERRUN | INVALID | VALID | INTERESTING.

#[global] Instance Status_eq_dec : EqDecision Status.
Proof. solve_decision. Defined.

Definition Status_value (s : Status) : Z :=
  match s with OVERRUN => 0 | INVALID => 1 | VALID => 2 | INTERESTING => 3 end.

(** What the engine reports for one run of the test function. *)
Record ConjectureResult (origin : Type) := Result {
  status : Status;
  interesting_origin : origin;
  buffer : bytes;
  has_discards : bool;
}.
Arguments Result {origin}.
Arguments status {origin}.
Arguments interesting_origin {origin}.
Arguments buffer {origin}.
Arguments has_discards {origin}.

Module Driver.
Section Normalize.
Context {origin : Type} `{Countable origin} {DFA : Type}.

(** [repr] of names and automata, used when the registry is saved. *)
Variable repr_name : str -> str.
Variable repr_dfa : DFA -> str.

(** The arguments of [normalize]. *)
Variable base_name : str.
Variable required_successes : nat.
Variable allowed_to_update : bool.
Variable max_dfas : nat.

(** [runner.cached_test_function(buf)]: the engine caches by buffer, so
    without [extend] the answer is a function of the buffer. *)
Variable cached_test_function : bytes -> ConjectureResult origin.

(** The local variables of [normalize] that live across iterations, and
    the module state. *)
Record session := Session {
  seen : gmap origin (ConjectureResult origin);
  dfas_added : nat;
  found_interesting : bool;
  consecutive_successes : nat;
  failures_to_find_interesting : nat;
  globals : world DFA;
}.

Definition start_session (w : world DFA) : session :=
  Session ∅ 0 false 0 0 w.

(** Answers of the engine, one per call that [normalize] makes to it. *)
Inductive event :=
| Attempt (attempt : ConjectureResult origin)
    (* [runner.cached_test_function(b'', extend=BUFFER_SIZE)], line 118 *)
| Shrunk (shrunk : ConjectureResult origin)
    (* [runner.shrink(attempt, ...)], line 135 *)
| Learnt (new_dfa : DFA) (digest : str) (example : ConjectureResult origin).
    (* lines 229-261: the canonical automaton of the learner, the first
       ten digits of its hash, and [runner.interesting_examples[target]] *)

(** Where [normalize] waits for the engine. *)
Inductive point :=
| Seeking                                             (* line 117 *)
| Shrinking (attempt : ConjectureResult origin) (target : origin)
                                                      (* line 130 *)
| Learning (attempt : ConjectureResult origin) (target : origin).
                                                      (* line 229 *)

Inductive outcome :=
| Returned (s : session)
| Raised (e : exn) (s : session)
| Running (p : point) (s : session)   (* the engine has not answered yet *)
| Unexpected                          (* an answer to another call *)
| OutOfFuel.

(** Lines 202-222. *)
Definition is_valid_core (prefix suffix : bytes) (target : origin)
    (allow_discards : bool) (s : bytes) : bool :=
  let buf := prefix ++ s ++ suffix in
  let result := cached_test_function buf in
  bool_decide (status result = INTERESTING)
  && bool_decide (interesting_origin result = target)
  && bool_decide (buffer result = buf)
  && (allow_discards || negb (has_discards result)).

(** Lines 263-266. *)
Definition finish (s : session) : outcome :=
  if (0 <? dfas_added s)%nat then
    match update_learned_dfas repr_name repr_dfa (globals s) with
    | Ok w =>
        Returned (Session (seen s) (dfas_added s) (found_interesting s)
                    (consecutive_successes s)
                    (failures_to_find_interesting s) w)
    | Raise e => Raised e s
    | Timeout => OutOfFuel
    end
  else Returned s.

(** Lines 118-128: one answer to the call of line 118. *)
Definition seek (attempt : ConjectureResult origin) (s : session)
    : outcome :=
  if Status_value (status attempt) <? Status_value INTERESTING then
    let failures := S (failures_to_find_interesting s) in
    let s' := Session (seen s) (dfas_added s) (found_interesting s)
                (consecutive_successes s) failures (globals s) in
    if found_interesting s || (failures <=? 1000)%nat
    then Running Seeking s'
    else Raised AssertionError s'
  else
    Running (Shrinking attempt (interesting_origin attempt))
      (Session (seen s) (dfas_added s) true (consecutive_successes s)
         (failures_to_find_interesting s) (globals s)).

(** Lines 135-227: one answer to the call of line 135. *)
Definition compare (attempt : ConjectureResult origin) (target : origin)
    (shrunk : ConjectureResult origin) (s : session) : outcome :=
  match seen s !! target with
  | None =>
      Running Seeking
        (Session (<[target := shrunk]> (seen s)) (dfas_added s)
           (found_interesting s) (consecutive_successes s)
           (failures_to_find_interesting s) (globals s))
  | Some existing =>
      if bool_decide (buffer shrunk = buffer existing) then
        Running Seeking
          (Session (seen s) (dfas_added s) (found_interesting s)
             (S (consecutive_successes s))
             (failures_to_find_interesting s) (globals s))
      else
        let s0 := Session (seen s) (dfas_added s) (found_interesting s)
                    0 (failures_to_find_interesting s) (globals s) in
        let '(u, v) := sorted_pair (buffer shrunk) (buffer existing) in
        if negb allowed_to_update then
          Raised (FailedToNormalise (NotAllowedToLearn v u)) s0
        else if (max_dfas <=? dfas_added s0)%nat then
          Raised (FailedToNormalise TooHardToLearn) s0
        else
          let s1 := Session (seen s0) (S (dfas_added s0))
                      (found_interesting s0) (consecutive_successes s0)
                      (failures_to_find_interesting s0) (globals s0) in
          match Strip.strip (Strip.enough u) u v with
          | Raise e => Raised e s1
          | Timeout => OutOfFuel
          | Ok c =>
              let allow_discards :=
                has_discards shrunk || has_discards existing in
              let valid :=
                is_valid_core (Strip.prefix c) (Strip.suffix c) target
                  allow_discards in
              if sort_key_ltb (Strip.u_core c) (Strip.v_core c)
                 && valid (Strip.u_core c) && valid (Strip.v_core c)
              then Running (Learning attempt target) s1
              else Raised AssertionError s1
          end
  end.

(** Lines 247-261: the learner has converged. *)
Definition register (attempt : ConjectureResult origin) (target : origin)
    (new_dfa : DFA) (digest : str) (example : ConjectureResult origin)
    (s : session) : outcome :=
  let name := base_name ++ lit "-" ++ digest in
  let w := globals s in
  match SHRINKING_DFAS w !! name with
  | Some _ => Raised AssertionError s
  | None =>
      Running (Shrinking attempt target)
        (Session (<[target := example]> (seen s)) (dfas_added s)
           (found_interesting s) (consecutive_successes s)
           (failures_to_find_interesting s)
           (World (<[name := new_dfa]> (SHRINKING_DFAS w))
              (learned_dfa_file w) (writes w)))
  end.

(** One answer of the engine, taken at the point where [normalize]
    waits. *)
Definition step (p : point) (s : session) (e : event) : outcome :=
  match p, e with
  | Seeking, Attempt attempt => seek attempt s
  | Shrinking attempt target, Shrunk shrunk =>
      compare attempt target shrunk s
  | Learning attempt target, Learnt new_dfa digest example =>
      register attempt target new_dfa digest example s
  | _, _ => Unexpected
  end.

(** An outcome that is still running goes on with [k]. *)
Definition and_then (out : outcome) (k : point -> session -> outcome)
    : outcome :=
  match out with
  | Running p s => k p s
  | Returned s => Returned s
  | Raised e s => Raised e s
  | Unexpected => Unexpected
  | OutOfFuel => OutOfFuel
  end.

(** [normalize] against a finite run of answers.  The test of the outer
    loop (line 117) is made whenever control is back at its head. *)
Fixpoint run (script : list event) (p : point) (s : session) : outcome :=
  match p with
  | Seeking =>
      if (consecutive_successes s <? required_successes)%nat then
        match script with
        | [] => Running p s
        | e :: script' => and_then (step p s e) (run script')
        end
      else finish s
  | _ =>
      match script with
      | [] => Running p s
      | e :: script' => and_then (step p s e) (run script')
      end
  end.

Definition normalize (w : world DFA) (script : list event) : outcome :=
  run script Seeking (start_session w).

End Normalize.
End Driver.
Export Driver.

(** ** Properties of the driver *)

Section NormalizeFacts.
Context {origin : Type} `{Countable origin} {DFA : Type}.
Variable repr_name : str -> str.
Variable repr_dfa : DFA -> str.
Variable base_name : str.
Variable required_successes : nat.
Variable allowed_to_update : bool.
Variable max_dfas : nat.
Variable cached_test_function : bytes -> ConjectureResult origin.

Local Abbreviation session := (@session origin _ _ DFA).
Local Abbreviation outcome := (@outcome origin _ _ DFA).
Local Abbreviation event := (@event origin DFA).
Local Abbreviation point := (@point origin).
Local Abbreviation run :=
  (Driver.run repr_name repr_dfa base_name required_successes allowed_to_update
     max_dfas cached_test_function).
Local Abbreviation step :=
  (Driver.step base_name allowed_to_update max_dfas cached_test_function).
Local Abbreviation compare :=
  (Driver.compare allowed_to_update max_dfas cached_test_function).
Local Abbreviation finish := (Driver.finish repr_name repr_dfa).
Local Abbreviation normalize :=
  (Driver.normalize repr_name repr_dfa base_name required_successes
     allowed_to_update max_dfas cached_test_function).

(** The session an outcome carries. *)
Definition session_of (out : outcome) : option session :=
  match out with
  | Returned s | Raised _ s | Running _ s => Some s
  | Unexpected | OutOfFuel => None
  end.

Lemma update_learned_dfas_registry (w w' : world DFA) :
  update_learned_dfas repr_name repr_dfa w = Ok w' ->
  SHRINKING_DFAS w' = SHRINKING_DFAS w.
Proof.
  unfold update_learned_dfas.
  destruct (Text.index_of _ _); cbn; try discriminate.
  case_bool_decide; intros [= <-]; reflexivity.
Qed.

Lemma update_learned_dfas_returns (w : world DFA) :
  update_learned_dfas repr_name repr_dfa w <> Timeout.
Proof.
  unfold update_learned_dfas, Text.index_of.
  destruct (list_find _ _) as [[i l]|]; cbn; [|discriminate].
  case_bool_decide; discriminate.
Qed.

(** A property of outcomes that every step of [normalize] keeps holds of
    every outcome of a run. *)
Section Invariant.
Variable J : outcome -> Prop.
Hypothesis J_step : forall p s e,
  J (Running p s) -> J (step p s e).
Hypothesis J_finish : forall s,
  (consecutive_successes s <? required_successes)%nat = false ->
  J (Running Seeking s) -> J (finish s).

Lemma run_invariant (script : list event) : forall p s,
  J (Running p s) -> J (run script p s).
Proof.
  induction script as [|e script IH]; intros p s Hs.
  - destruct p; cbn [Driver.run]; auto.
    destruct (_ <? _)%nat eqn:Hlt; auto.
  - assert (Hgo : J (and_then (step p s e) (run script))).
    { pose proof (J_step p s e Hs) as Hst.
      destruct (step p s e); cbn [and_then]; auto. }
    destruct p; cbn [Driver.run]; auto.
    destruct (_ <? _)%nat eqn:Hlt; auto.
Qed.
End Invariant.

Lemma and_then_assoc (out : outcome) (k1 k2 : point -> session -> outcome) :
  and_then (and_then out k1) k2
  = and_then out (fun p s => and_then (k1 p s) k2).
Proof. destruct out; reflexivity. Qed.

Lemma finish_not_running (s : session) p s' : finish s <> Running p s'.
Proof.
  unfold Driver.finish. destruct (_ <? _)%nat; [|discriminate].
  destruct (update_learned_dfas _ _ _); discriminate.
Qed.

(** Answers that arrive later do not change what happened before. *)
Lemma run_app (l1 l2 : list event) : forall p s,
  run (l1 ++ l2) p s = and_then (run l1 p s) (run l2).
Proof.
  induction l1 as [|e l1 IH]; intros p s.
  - destruct p; cbn [app Driver.run and_then]; try reflexivity.
    destruct (_ <? _)%nat eqn:Hlt; cbn [and_then].
    + destruct l2; cbn [Driver.run]; rewrite Hlt; reflexivity.
    + pose proof (finish_not_running s) as Hf.
      destruct l2; cbn [Driver.run]; rewrite Hlt;
        destruct (finish s); try reflexivity; exfalso; eapply Hf; eauto.
  - assert (Hgo : and_then (step p s e) (run (l1 ++ l2))
                  = and_then (and_then (step p s e) (run l1)) (run l2)).
    { rewrite and_then_assoc. destruct (step p s e); cbn [and_then]; auto. }
    destruct p; cbn [app Driver.run]; auto.
    destruct (_ <? _)%nat eqn:Hlt; auto.
    pose proof (finish_not_running s) as Hf.
    destruct (finish s); try reflexivity; exfalso; eapply Hf; eauto.
Qed.

(** The model never runs out of fuel: the peeling loops and the saving
    of the registry always stop. *)
Lemma run_stops (script : list event) p s : run script p s <> OutOfFuel.
Proof.
  apply (run_invariant (fun out => out <> OutOfFuel)); [| |discriminate].
  - intros p0 s0 e _. destruct p0, e; cbn; try discriminate.
    + unfold seek. repeat case_match; discriminate.
    + unfold Driver.compare.
      destruct (seen s0 !! target); [|discriminate].
      case_bool_decide; [discriminate|].
      destruct (sorted_pair _ _) as [u v].
      destruct (negb allowed_to_update); [discriminate|].
      destruct (_ <=? _)%nat; [discriminate|].
      pose proof (strip_stops u v).
      destruct (Strip.strip _ _ _); try done.
      case_match; discriminate.
    + unfold register. case_match; discriminate.
  - intros s0 _ _. unfold Driver.finish.
    destruct (_ <? _)%nat; [|discriminate].
    pose proof (update_learned_dfas_returns (globals s0)).
    destruct (update_learned_dfas _ _ _); try done.
Qed.

(** *** Divergence when learning is not allowed *)

Lemma no_update_keeps_globals (w : world DFA) (script : list event) :
  allowed_to_update = false ->
  forall s', session_of (normalize w script) = Some s' ->
    globals s' = w /\ dfas_added s' = 0%nat.
Proof.
  intros Hno.
  pose (J := fun out : outcome =>
    match out with
    | Running (Learning _ _) _ => False
    | _ => forall s', session_of out = Some s' ->
             globals s' = w /\ dfas_added s' = 0%nat
    end).
  assert (HJ : J (normalize w script)).
  { apply (run_invariant J); unfold J.
    - intros p s e Hs.
      destruct p, e; cbn; try discriminate; try done.
      + specialize (Hs s eq_refl) as [Hw Hd].
        unfold seek. destruct (_ <? _); [destruct (_ || _)|]; cbn;
          intros s' [= <-]; cbn; auto.
      + specialize (Hs s eq_refl) as [Hw Hd].
        unfold Driver.compare. rewrite Hno. cbn [negb].
        destruct (seen s !! target); [|cbn; intros s' [= <-]; cbn; auto].
        case_bool_decide; [cbn; intros s' [= <-]; cbn; auto|].
        destruct (sorted_pair _ _) as [u v]. cbn. intros s' [= <-]; cbn; auto.
    - intros s _ Hs. specialize (Hs s eq_refl) as [Hw Hd].
      unfold Driver.finish. rewrite Hd. cbn. intros s' [= <-]; auto.
    - intros s' [= <-]. cbn. auto. }
  unfold J in HJ. destruct (normalize w script) as [| |[]| |]; auto; done.
Qed.

(** C8.  When the shrinker gives, for an origin already seen, a buffer
    that differs from the recorded one and [allowed_to_update] is false,
    [normalize] raises [FailedToNormalise] at once, whatever the engine
    would answer next: nothing is learnt, the registry and the file are
    as they were and no write has been made.  Over a whole call the
    module state stays the one the call started with. *)
Theorem divergence_without_update_fails
    (attempt shrunk existing : ConjectureResult origin) (target : origin)
    (s : session) (rest : list event) :
  allowed_to_update = false ->
  seen s !! target = Some existing ->
  buffer shrunk <> buffer existing ->
  (exists u v s',
      sorted_pair (buffer shrunk) (buffer existing) = (u, v)
      /\ run (Shrunk shrunk :: rest) (Shrinking attempt target) s
         = Raised (FailedToNormalise (NotAllowedToLearn v u)) s'
      /\ globals s' = globals s
      /\ dfas_added s' = dfas_added s
      /\ seen s' = seen s)
  /\ (forall w script s',
        session_of (normalize w script) = Some s' ->
        globals s' = w /\ dfas_added s' = 0%nat).
Proof.
  intros Hno Hseen Hne. split.
  - destruct (sorted_pair (buffer shrunk) (buffer existing)) as [u v] eqn:Hp.
    exists u, v. eexists. split; [reflexivity|].
    cbn [Driver.run Driver.step]. unfold Driver.compare.
    rewrite Hseen, Hno, Hp. rewrite bool_decide_eq_false_2 by exact Hne.
    cbn. auto.
  - intros w script s'. apply no_update_keeps_globals. exact Hno.
Qed.

(** *** The cap on learnt automata *)

Definition registered (s : session) : nat :=
  size (SHRINKING_DFAS (globals s)).

(** What holds of the count [dfas_added] along a call started with the
    module state [w].  Between the increment of line 166 and the
    registration of line 259 one automaton is still to be registered. *)
Definition within_cap (w : world DFA) (out : outcome) : Prop :=
  match out with
  | Running (Learning _ _) s =>
      (dfas_added s <= max_dfas)%nat
      /\ (S (registered s) <= size (SHRINKING_DFAS w) + dfas_added s)%nat
  | Running _ s | Returned s | Raised _ s =>
      (dfas_added s <= max_dfas)%nat
      /\ (registered s <= size (SHRINKING_DFAS w) + dfas_added s)%nat
  | Unexpected | OutOfFuel => True
  end.

Lemma normalize_within_cap (w : world DFA) (script : list event) :
  within_cap w (normalize w script).
Proof.
  apply (run_invariant (within_cap w)).
  - intros p s e Hs. destruct p, e; cbn [Driver.step within_cap]; try done.
    + cbn in Hs. unfold seek.
      destruct (_ <? _); [destruct (_ || _)|]; cbn; exact Hs.
    + cbn in Hs. destruct Hs as [Hd Hr]. unfold Driver.compare.
      destruct (seen s !! target); [|cbn; auto].
      case_bool_decide; [cbn; auto|].
      destruct (sorted_pair _ _) as [u v].
      destruct (negb allowed_to_update); [cbn; auto|].
      cbn [dfas_added]. destruct (Nat.leb_spec max_dfas (dfas_added s));
        [cbn; auto|].
      destruct (Strip.strip _ _ _); [|cbn; unfold registered in *; cbn; lia|done].
      destruct (_ && _); cbn; unfold registered in *; cbn; lia.
    + cbn in Hs. destruct Hs as [Hd Hr]. unfold register.
      destruct (SHRINKING_DFAS (globals s) !! _) eqn:Hfresh.
      * cbn. unfold registered in *. lia.
      * cbn. unfold registered in *. cbn.
        rewrite map_size_insert_None by exact Hfresh. lia.
  - intros s _ Hs. cbn in Hs. unfold Driver.finish.
    destruct (_ <? _)%nat; [|exact Hs].
    destruct (update_learned_dfas _ _ _) as [w'| |] eqn:Hu; cbn; auto.
    unfold registered in *. cbn.
    rewrite (update_learned_dfas_registry _ _ Hu). exact Hs.
  - cbn. unfold registered. cbn. lia.
Qed.

Lemma returned_after_successes (script : list event) p s s' :
  run script p s = Returned s' ->
  (required_successes <= consecutive_successes s')%nat.
Proof.
  pose (J := fun out : outcome =>
    match out with
    | Returned s' => (required_successes <= consecutive_successes s')%nat
    | _ => True
    end).
  intros Hret. change (J (Returned s')). rewrite <- Hret.
  apply (run_invariant J); unfold J; [| |done].
  - intros p0 s0 e _. destruct p0, e; cbn [Driver.step]; try done.
    + unfold seek. destruct (_ <? _); [destruct (_ || _)|]; done.
    + unfold Driver.compare.
      destruct (seen s0 !! target); [|done].
      case_bool_decide; [done|].
      destruct (sorted_pair _ _) as [u v].
      destruct (negb allowed_to_update); [done|].
      destruct (_ <=? _)%nat; [done|].
      destruct (Strip.strip _ _ _); try done.
      destruct (_ && _); done.
    + unfold register. destruct (_ !! _); done.
  - intros s0 Hge _. apply Nat.ltb_ge in Hge. unfold Driver.finish.
    destruct (_ <? _)%nat; [|exact Hge].
    destruct (update_learned_dfas _ _ _); cbn; auto.
Qed.

(** C7.  However the engine answers, a call of [normalize] never has
    more than [max_dfas] automata added: the count [dfas_added] and the
    growth of the registry stay within the cap in every outcome, a call
    that returns has seen [required_successes] successes in a row, and a
    divergence met when learning is allowed and the cap is reached raises
    [FailedToNormalise] at once, with the module state untouched. *)
Theorem learning_stays_within_max_dfas (w : world DFA) (script : list event) :
  (forall s', session_of (normalize w script) = Some s' ->
      (dfas_added s' <= max_dfas)%nat
      /\ (registered s' <= size (SHRINKING_DFAS w) + max_dfas)%nat)
  /\ (forall s', normalize w script = Returned s' ->
        (required_successes <= consecutive_successes s')%nat)
  /\ (forall attempt target shrunk existing s rest,
        allowed_to_update = true ->
        seen s !! target = Some existing ->
        buffer shrunk <> buffer existing ->
        (max_dfas <= dfas_added s)%nat ->
        exists s',
          run (Shrunk shrunk :: rest) (Shrinking attempt target) s
          = Raised (FailedToNormalise TooHardToLearn) s'
          /\ globals s' = globals s
          /\ dfas_added s' = dfas_added s)
  /\ normalize w script <> OutOfFuel.
Proof.
  repeat split.
  - pose proof (normalize_within_cap w script) as Hc.
    destruct (normalize w script) as [s|e s|[] s| |]; cbn in *;
      try discriminate; injection H0 as <-; lia.
  - pose proof (normalize_within_cap w script) as Hc.
    destruct (normalize w script) as [s|e s|[] s| |]; cbn in *;
      try discriminate; injection H0 as <-; lia.
  - intros s'. apply returned_after_successes.
  - intros attempt target shrunk existing s rest Hyes Hseen Hne Hcap.
    eexists. cbn [Driver.run Driver.step and_then]. unfold Driver.compare.
    rewrite Hseen, Hyes. rewrite bool_decide_eq_false_2 by exact Hne.
    destruct (sorted_pair _ _) as [u v]. cbn [negb dfas_added].
    apply Nat.leb_le in Hcap. rewrite Hcap. cbn. auto.
  - apply run_stops.
Qed.

(** *** The budget for finding an interesting test case *)

(** [attempt.status < Status.INTERESTING] *)
Definition boring (a : ConjectureResult origin) : Prop :=
  Status_value (status a) < Status_value INTERESTING.

Definition failed_attempts (n : nat) (s : session) : session :=
  Session (seen s) (dfas_added s) (found_interesting s)
    (consecutive_successes s) (n + failures_to_find_interesting s)%nat
    (globals s).

Lemma seek_boring (a : ConjectureResult origin) (s : session) :
  boring a ->
  seek a s =
    if found_interesting s
       || (S (failures_to_find_interesting s) <=? 1000)%nat
    then Running Seeking (failed_attempts 1 s)
    else Raised AssertionError (failed_attempts 1 s).
Proof.
  unfold boring, seek. intros Hb.
  replace (_ <? _) with true by (symmetry; lia). reflexivity.
Qed.

Lemma run_boring (attempts : list (ConjectureResult origin)) :
  forall s,
    Forall boring attempts ->
    (consecutive_successes s < required_successes)%nat ->
    found_interesting s = true
    \/ (length attempts + failures_to_find_interesting s <= 1000)%nat ->
    run (Attempt <$> attempts) Seeking s
    = Running Seeking (failed_attempts (length attempts) s).
Proof.
  induction attempts as [|a attempts IH]; intros s Hall Hlt Hbudget.
  - cbn [fmap list_fmap Driver.run]. apply Nat.ltb_lt in Hlt.
    rewrite Hlt. destruct s; reflexivity.
  - inversion Hall as [|? ? Ha Hall']; subst.
    cbn [fmap list_fmap Driver.run Driver.step].
    pose proof Hlt as Hlt'. apply Nat.ltb_lt in Hlt'. rewrite Hlt'.
    rewrite seek_boring by exact Ha.
    replace (_ || _) with true.
    2:{ symmetry. destruct Hbudget as [->|Hb]; [reflexivity|].
        apply orb_true_iff. right. apply Nat.leb_le. cbn in Hb. lia. }
    cbn [and_then].
    change (run (Attempt <$> attempts) Seeking (failed_attempts 1 s)
            = Running Seeking (failed_attempts (length (a :: attempts)) s)).
    rewrite IH; [| exact Hall' | exact Hlt |].
    + unfold failed_attempts. cbn. do 2 f_equal. lia.
    + destruct Hbudget as [Hf|Hb]; [left; exact Hf | right].
      cbn in *. lia.
Qed.

(** C3, as the code has it.  Before any interesting test case has been
    found, up to 1000 attempts in a row that are not interesting are
    tolerated; the assertion fails at the next one, the 1001st.  Once an
    interesting test case has been found, an attempt that is not
    interesting only adds to the count. *)
Theorem no_interesting_case_budget (w : world DFA)
    (attempts : list (ConjectureResult origin)) :
  (0 < required_successes)%nat ->
  Forall boring attempts ->
  ((length attempts <= 1000)%nat ->
     normalize w (Attempt <$> attempts)
     = Running Seeking (Session ∅ 0 false 0 (length attempts) w))
  /\ ((1000 < length attempts)%nat ->
       normalize w (Attempt <$> attempts)
       = Raised AssertionError (Session ∅ 0 false 0 1001 w))
  /\ (forall s, found_interesting s = true ->
        (consecutive_successes s < required_successes)%nat ->
        run (Attempt <$> attempts) Seeking s
        = Running Seeking (failed_attempts (length attempts) s)).
Proof.
  intros Hreq Hall. repeat split.
  - intros Hlen. unfold Driver.normalize.
    rewrite run_boring; [| exact Hall | exact Hreq | right; cbn; lia].
    unfold failed_attempts, start_session. cbn. do 2 f_equal. lia.
  - intros Hlen. unfold Driver.normalize.
    rewrite <- (take_drop 1000 attempts), fmap_app, run_app.
    assert (Hl : length (take 1000 attempts) = 1000%nat)
      by (rewrite length_take; lia).
    rewrite run_boring;
      [| apply Forall_take; exact Hall | exact Hreq | right; cbn; lia].
    rewrite Hl. cbn [and_then].
    destruct (drop 1000 attempts) as [|a rest] eqn:Hd.
    { apply (f_equal length) in Hd. rewrite length_drop in Hd.
      cbn in Hd. lia. }
    assert (Ha : boring a).
    { eapply (Forall_drop _ 1000) in Hall. rewrite Hd in Hall.
      inversion Hall; assumption. }
    cbn [fmap list_fmap Driver.run Driver.step].
    replace (_ <? _)%nat with true by (symmetry; apply Nat.ltb_lt; exact Hreq).
    rewrite seek_boring by exact Ha. reflexivity.
  - intros s Hf Hlt. apply run_boring; auto.
Qed.

(** *** One counter of successes for all origins *)

(** C10.  [consecutive_successes] is one counter of the session, not one
    per origin.  For any origin [target] with a recorded result: a shrink
    that gives the recorded buffer again adds one to it, a shrink that
    gives another buffer leaves it at zero whatever happens next, and at
    the head of the loop the call ends as soon as the counter has reached
    [required_successes], without asking the engine again and whatever
    the origins of the successes were. *)
Theorem successes_counted_across_origins
    (attempt shrunk existing : ConjectureResult origin) (target : origin)
    (s : session) :
  seen s !! target = Some existing ->
  (buffer shrunk = buffer existing ->
     step (Shrinking attempt target) s (Shrunk shrunk)
     = Running Seeking
         (Session (seen s) (dfas_added s) (found_interesting s)
            (S (consecutive_successes s))
            (failures_to_find_interesting s) (globals s)))
  /\ (buffer shrunk <> buffer existing ->
      forall s', session_of (step (Shrinking attempt target) s
                               (Shrunk shrunk)) = Some s' ->
                 consecutive_successes s' = 0%nat)
  /\ (forall script,
        (required_successes <= consecutive_successes s)%nat ->
        run script Seeking s = finish s).
Proof.
  intros Hseen. repeat split.
  - intros Heq. cbn [Driver.step]. unfold Driver.compare.
    rewrite Hseen, bool_decide_eq_true_2 by exact Heq. reflexivity.
  - intros Hne s'. cbn [Driver.step]. unfold Driver.compare.
    rewrite Hseen, bool_decide_eq_false_2 by exact Hne.
    destruct (sorted_pair _ _) as [u v].
    destruct (negb allowed_to_update); [intros [= <-]; reflexivity|].
    destruct (_ <=? _)%nat; [intros [= <-]; reflexivity|].
    destruct (Strip.strip _ _ _); try (intros [= <-]; reflexivity);
      try discriminate.
    destruct (_ && _); intros [= <-]; reflexivity.
  - intros script Hge. apply Nat.ltb_ge in Hge.
    destruct script; cbn [Driver.run]; rewrite Hge; reflexivity.
Qed.

End NormalizeFacts.

(** *** A concrete engine, for examples *)

Module Example.
Local Open Scope nat_scope.

(** Origins are numbers, automata are not looked into. *)
Definition w0 : world unit := World ∅ (lit "# AUTOGENERATED BEGINS") 0.

Definition run_buffer (b : bytes) : ConjectureResult nat :=
  Result INTERESTING 7 b false.

Definition normalize (required_successes : nat) (allowed_to_update : bool)
    (max_dfas : nat)
    : list (@event nat unit) -> @outcome nat _ _ unit :=
  Driver.normalize (origin := nat) (fun k => k) (fun _ => lit "D")
    (lit "learned") required_successes allowed_to_update max_dfas
    run_buffer w0.

Definition dull : ConjectureResult nat := Result VALID 0 [] false.
Definition found (o : nat) : ConjectureResult nat :=
  Result INTERESTING o ["001"%byte; "002"%byte] false.
Definition small (o : nat) (b : bytes) : ConjectureResult nat :=
  Result INTERESTING o b false.
End Example.

Section Examples.
Import Example.
Local Open Scope nat_scope.

Let one := "001"%byte.
Let two := "002"%byte.
Let three := "003"%byte.

(** A session that learns one automaton: the second shrink for origin 7
    gives [01 03] where [01 02] was recorded; the cores are [02] and
    [03], and the learnt automaton is registered and saved. *)
Example learning_session :
  match
    normalize 1 true 10
      [ Attempt (found 7); Shrunk (small 7 [one; two]);
        Attempt (found 7); Shrunk (small 7 [one; three]);
        Learnt tt (lit "0123456789") (small 7 [one; two]);
        Shrunk (small 7 [one; two]) ]
  with
  | Returned s =>
      dfas_added s = 1
      /\ consecutive_successes s = 1
      /\ SHRINKING_DFAS (globals s) !! lit "learned-0123456789" = Some tt
      /\ writes (globals s) = 1
      /\ Text.splitlines (learned_dfa_file (globals s))
         = [ lit "# AUTOGENERATED BEGINS"; lit ""; lit "# fmt: off"; lit "";
             lit "SHRINKING_DFAS[learned-0123456789] = D # noqa: E501";
             lit ""; lit "# fmt: on" ]
  | _ => False
  end.
Proof. vm_compute. repeat split. Qed.

(** C3, counterexample to the claim as stated: after 1000 attempts in a
    row that are not interesting, with no interesting test case found
    before, [normalize] has not failed; it goes on and returns once the
    engine finds an interesting test case that shrinks twice to the same
    buffer. *)
Lemma thousand_failures_do_not_abort :
  normalize 1 false 10 (replicate 1000 (Attempt dull))
  = Running Seeking (Session ∅ 0 false 0 1000 w0)
  /\ normalize 1 false 10
       (replicate 1000 (Attempt dull)
          ++ [ Attempt (found 7); Shrunk (small 7 [one]);
               Attempt (found 7); Shrunk (small 7 [one]) ])
     = Returned (Session {[ 7 := small 7 [one] ]} 0 true 1 1000 w0).
Proof. split; vm_compute; reflexivity. Qed.

(** The file of a registry with the names [b] and [a], regenerated
    after the marker. *)
Definition old_file : str :=
  lit "# header" ++ [13%N; 10%N] ++ lit "# AUTOGENERATED BEGINS"
    ++ [10%N] ++ lit "stale" ++ [10%N].

Definition two_names : world unit :=
  World {[ lit "b" := tt; lit "a" := tt ]} old_file 0.

Lemma update_learned_dfas_rewrites_after_marker_witness :
  Text.index_of (Text.splitlines old_file) marker = Ok 1
  /\ exists w',
       update_learned_dfas (fun k => k) (fun _ => lit "D") two_names
       = Ok w'
       /\ writes w' = 1
       /\ Text.splitlines (learned_dfa_file w')
          = [ lit "# header"; lit "# AUTOGENERATED BEGINS";
              lit ""; lit "# fmt: off"; lit "";
              lit "SHRINKING_DFAS[a] = D # noqa: E501";
              lit "SHRINKING_DFAS[b] = D # noqa: E501";
              lit ""; lit "# fmt: on" ].
Proof.
  assert (Hi : Text.index_of (Text.splitlines (learned_dfa_file two_names))
                 marker = Ok 1) by (vm_compute; reflexivity).
  split; [exact Hi|].
  destruct (update_learned_dfas_rewrites_after_marker (fun k => k)
              (fun _ => lit "D") two_names 1 Hi) as (Hup & _).
  eexists. split; [exact Hup|]. vm_compute. split; reflexivity.
Defined.

Lemma no_interesting_case_budget_witness :
  let attempts := replicate 1001 dull in
  (0 < 1) /\ Forall boring attempts
  /\ normalize 1 false 10 (Attempt <$> attempts)
     = Raised AssertionError (Session ∅ 0 false 0 1001 w0).
Proof.
  intros attempts.
  assert (Hall : Forall boring attempts).
  { apply Forall_replicate. unfold boring. cbn. lia. }
  split; [lia|]. split; [exact Hall|].
  apply (no_interesting_case_budget (fun k => k) (fun _ => lit "D")
           (lit "learned") 1 false 10 run_buffer w0 attempts);
    [lia | exact Hall |].
  unfold attempts. rewrite length_replicate. lia.
Defined.

Lemma divergence_without_update_fails_witness :
  let s := Session {[ 7 := small 7 [one; two] ]} 0 true 3 0 w0 in
  seen s !! 7 = Some (small 7 [one; two])
  /\ buffer (small 7 [one; three]) <> buffer (small 7 [one; two])
  /\ exists u v s',
       sorted_pair [one; three] [one; two] = (u, v)
       /\ Driver.run (fun k => k) (fun _ => lit "D") (lit "learned") 5
            false 10 run_buffer
            [Shrunk (small 7 [one; three]); Attempt dull]
            (Shrinking (found 7) 7) s
          = Raised (FailedToNormalise (NotAllowedToLearn v u)) s'
       /\ globals s' = w0 /\ dfas_added s' = 0 /\ seen s' = seen s.
Proof.
  intros s.
  assert (H1 : seen s !! 7 = Some (small 7 [one; two])) by reflexivity.
  assert (H2 : buffer (small 7 [one; three])
               <> buffer (small 7 [one; two])) by discriminate.
  split; [exact H1|]. split; [exact H2|].
  exact (proj1 (divergence_without_update_fails (fun k => k)
           (fun _ => lit "D") (lit "learned") 5 false 10 run_buffer
           (found 7) (small 7 [one; three]) (small 7 [one; two]) 7 s
           [Attempt dull] eq_refl H1 H2)).
Defined.

Lemma learning_stays_within_max_dfas_witness :
  let script :=
    [ Attempt (found 7); Shrunk (small 7 [one; two]);
      Attempt (found 7); Shrunk (small 7 [one; three]);
      Learnt tt (lit "0123456789") (small 7 [one; two]);
      Shrunk (small 7 [one; three]) ] in
  normalize 1 true 1 script <> OutOfFuel
  /\ forall s', session_of (normalize 1 true 1 script) = Some s' ->
       dfas_added s' <= 1.
Proof.
  intros script.
  pose proof (learning_stays_within_max_dfas (fun k => k)
                (fun _ => lit "D") (lit "learned") 1 true 1 run_buffer
                w0 script) as (Hcap & _ & _ & Hfuel).
  split; [exact Hfuel|].
  intros s' Hs'. exact (proj1 (Hcap s' Hs')).
Defined.

(** With two origins, one success for origin 7 and one for origin 9 end
    a session that requires two successes in a row. *)
Lemma successes_counted_across_origins_witness :
  let s := Session {[ 7 := small 7 [one]; 9 := small 9 [two] ]}
             0 true 1 0 w0 in
  seen s !! 9 = Some (small 9 [two])
  /\ Driver.step (lit "learned") false 10 run_buffer
       (Shrinking (found 9) 9) s (Shrunk (small 9 [two]))
     = Running Seeking
         (Session (seen s) 0 true 2 0 w0)
  /\ normalize 2 false 10
       [ Attempt (found 7); Shrunk (small 7 [one]);
         Attempt (found 9); Shrunk (small 9 [two]);
         Attempt (found 7); Shrunk (small 7 [one]);
         Attempt (found 9); Shrunk (small 9 [two]);
         Attempt (found 7) ]
     = Returned (Session (seen s) 0 true 2 0 w0).
Proof.
  intros s.
  assert (H1 : seen s !! 9 = Some (small 9 [two])) by reflexivity.
  split; [exact H1|]. split.
  - exact (proj1 (successes_counted_across_origins (fun k => k)
             (fun _ => lit "D") (lit "learned") 2 false 10 run_buffer
             (found 9) (small 9 [two]) (small 9 [two]) 9 s H1) eq_refl).
  - vm_compute. reflexivity.
Defined.
End Examples.

(** * Further properties of [dfas.py] *)

(** ** What the peeling of lines 168-198 computes *)

Local Open Scope nat_scope.

(** Length of the longest common prefix of two buffers. *)
Fixpoint common_prefix (u v : bytes) : nat :=
  match u, v with
  | a :: u', b :: v' =>
      if bool_decide (a = b) then S (common_prefix u' v') else 0
  | _, _ => 0
  end.

(** Length of the longest common suffix. *)
Definition common_suffix (u v : bytes) : nat :=
  common_prefix (reverse u) (reverse v).

(** Comparisons as booleans, settled by arithmetic. *)
Ltac by_order :=
  symmetry;
  first [ apply Z.ltb_lt | apply Z.ltb_ge | apply Z.leb_le | apply Z.leb_gt
        | apply Nat.ltb_lt | apply Nat.ltb_ge | apply Nat.leb_le
        | apply Nat.leb_gt | apply Nat.eqb_eq | apply Nat.eqb_neq ];
  lia.

Section Peeling.
Import Strip.
#[local] Arguments Nat.ltb : simpl never.
#[local] Arguments Nat.leb : simpl never.

Lemma common_prefix_le (u : bytes) : forall v,
  common_prefix u v <= length u /\ common_prefix u v <= length v.
Proof.
  induction u as [|a u IH]; intros [|b v]; cbn; try lia.
  case_bool_decide; [|lia]. specialize (IH v). lia.
Qed.

Lemma common_prefix_take (u : bytes) : forall v,
  take (common_prefix u v) u = take (common_prefix u v) v.
Proof.
  induction u as [|a u IH]; intros [|b v]; cbn; try done.
  case_bool_decide; [|done]. subst. cbn. by rewrite IH.
Qed.

Lemma common_prefix_mismatch (u : bytes) : forall v,
  common_prefix u v < length u -> common_prefix u v < length v ->
  u !! common_prefix u v <> v !! common_prefix u v.
Proof.
  induction u as [|a u IH]; intros [|b v]; cbn; try lia.
  case_bool_decide; [|cbn; congruence].
  intros Hu Hv. cbn. apply IH; lia.
Qed.

Lemma startswith_prefix (u : bytes) : forall v,
  Py.startswith v u = true <-> common_prefix u v = length u.
Proof.
  induction u as [|a u IH]; intros [|b v]; cbn; try done.
  case_bool_decide as Hab; cbn.
  - rewrite bool_decide_eq_true_2 by done. cbn. rewrite IH. lia.
  - rewrite bool_decide_eq_false_2 by congruence. cbn. done.
Qed.

Lemma startswith_take (u : bytes) (n : nat) :
  Py.startswith u (take n u) = true.
Proof.
  revert n. induction u as [|a u IH]; intros [|n]; cbn; try done.
  rewrite bool_decide_eq_true_2 by done. apply IH.
Qed.

Lemma endswith_drop (u : bytes) (n : nat) :
  Py.endswith u (drop n u) = true.
Proof.
  unfold Py.endswith. rewrite reverse_drop. apply startswith_take.
Qed.

Lemma common_suffix_drop (u v : bytes) :
  drop (length u - common_suffix u v) u
  = drop (length v - common_suffix u v) v.
Proof.
  unfold common_suffix.
  pose proof (common_prefix_take (reverse u) (reverse v)) as H.
  rewrite !take_reverse in H. by apply (inj reverse) in H.
Qed.

(** *** Indexing *)

Lemma index_nat (l : bytes) (n : nat) :
  Py.index l (Z.of_nat n)
  = match l !! n with Some x => Ok x | None => Raise IndexError end.
Proof.
  unfold Py.index, Py.len.
  replace (Z.of_nat n <? 0)%Z with false by by_order. cbv iota.
  replace (Z.of_nat n <? 0)%Z with false by by_order.
  rewrite Nat2Z.id. cbn [orb].
  destruct (l !! n) as [x|] eqn:Hn.
  - apply lookup_lt_Some in Hn.
    by replace (Z.of_nat (length l) <=? Z.of_nat n)%Z
      with false by by_order.
  - by destruct (_ <=? _)%Z.
Qed.

Lemma index_from_end (l : bytes) (n : nat) :
  Py.index l (- Z.of_nat (S n)) = Py.index (reverse l) (Z.of_nat n).
Proof.
  rewrite index_nat. unfold Py.index, Py.len.
  replace (- Z.of_nat (S n) <? 0)%Z with true by by_order. cbv iota.
  destruct (decide (n < length l)) as [Hlt|Hge].
  - replace (Z.of_nat (length l) + - Z.of_nat (S n) <? 0)%Z
      with false by by_order.
    replace (Z.of_nat (length l) <=? _)%Z with false by by_order.
    cbn [orb]. rewrite reverse_lookup by done.
    replace (Z.to_nat _) with (length l - S n) by lia. done.
  - replace (Z.of_nat (length l) + - Z.of_nat (S n) <? 0)%Z
      with true by by_order.
    cbn [orb]. rewrite (proj2 (lookup_ge_None (reverse l) n))
      by (rewrite length_reverse; lia). done.
Qed.

(** *** The two loops *)

Definition loop_result (u v : bytes) (i : nat) : nat :=
  i + common_prefix (drop i u) (drop i v).

Lemma prefix_loop_spec (fuel : nat) (u v : bytes) : forall i,
  length u - i < fuel ->
  prefix_loop fuel u v (Z.of_nat i)
  = let j := loop_result u v i in
    if (j <? length u) && (j <? length v) then Ok (Z.of_nat j)
    else Raise IndexError.
Proof.
  induction fuel as [|fuel IH]; intros i Hfuel; [lia|].
  cbn [prefix_loop]. rewrite !index_nat. unfold loop_result.
  destruct (u !! i) as [a|] eqn:Ha.
  - destruct (v !! i) as [b|] eqn:Hb.
    + rewrite (drop_S u a i Ha), (drop_S v b i Hb). cbn.
      case_bool_decide as Hab.
      * replace (Z.of_nat i + 1)%Z with (Z.of_nat (S i)) by lia.
        rewrite IH by (apply lookup_lt_Some in Ha; lia).
        unfold loop_result. cbn zeta.
        by replace (i + S _) with (S i + common_prefix (drop (S i) u)
                                          (drop (S i) v)) by lia.
      * rewrite Nat.add_0_r.
        apply lookup_lt_Some in Ha, Hb.
        replace (i <? length u) with true by by_order.
        by replace (i <? length v) with true
          by by_order.
    + cbn. apply lookup_ge_None in Hb. rewrite (drop_ge v i) by done.
      destruct (drop i u); cbn; rewrite Nat.add_0_r;
        replace (i <? length v) with false
          by by_order;
        by rewrite andb_false_r.
  - cbn. apply lookup_ge_None in Ha. rewrite (drop_ge u i) by done. cbn.
    rewrite Nat.add_0_r.
    by replace (i <? length u) with false by by_order.
Qed.

Lemma suffix_loop_spec (fuel : nat) (u v : bytes) : forall i,
  length u - i < fuel ->
  suffix_loop fuel u v (Z.of_nat (S i))
  = let j := loop_result (reverse u) (reverse v) i in
    if (j <? length u) && (j <? length v) then Ok (Z.of_nat (S j))
    else Raise IndexError.
Proof.
  induction fuel as [|fuel IH]; intros i Hfuel; [lia|].
  cbn [suffix_loop]. rewrite !index_from_end, !index_nat. unfold loop_result.
  destruct (reverse u !! i) as [a|] eqn:Ha.
  - destruct (reverse v !! i) as [b|] eqn:Hb.
    + rewrite (drop_S _ a i Ha), (drop_S _ b i Hb). cbn.
      case_bool_decide as Hab.
      * replace (Z.of_nat (S i) + 1)%Z with (Z.of_nat (S (S i))) by lia.
        rewrite IH by (apply lookup_lt_Some in Ha;
                       rewrite length_reverse in Ha; lia).
        unfold loop_result. cbn zeta.
        by replace (i + S _)
          with (S i + common_prefix (drop (S i) (reverse u))
                        (drop (S i) (reverse v))) by lia.
      * rewrite Nat.add_0_r.
        apply lookup_lt_Some in Ha, Hb. rewrite length_reverse in Ha, Hb.
        replace (i <? length u) with true by by_order.
        by replace (i <? length v) with true
          by by_order.
    + cbn. apply lookup_ge_None in Hb. rewrite (drop_ge (reverse v) i) by done.
      rewrite length_reverse in Hb.
      destruct (drop i (reverse u)); cbn; rewrite Nat.add_0_r;
        replace (i <? length v) with false
          by by_order;
        by rewrite andb_false_r.
  - cbn. apply lookup_ge_None in Ha. rewrite (drop_ge (reverse u) i) by done.
    rewrite length_reverse in Ha. cbn. rewrite Nat.add_0_r.
    by replace (i <? length u) with false by by_order.
Qed.

Lemma prefix_loop_start (fuel : nat) (u v : bytes) :
  length u < fuel ->
  prefix_loop fuel u v 0
  = let j := common_prefix u v in
    if (j <? length u) && (j <? length v) then Ok (Z.of_nat j)
    else Raise IndexError.
Proof.
  intros Hfuel. change 0%Z with (Z.of_nat 0).
  rewrite prefix_loop_spec by lia. unfold loop_result.
  by rewrite !drop_0, Nat.add_0_l.
Qed.

Lemma suffix_loop_start (fuel : nat) (u v : bytes) :
  length u < fuel ->
  suffix_loop fuel u v 1
  = let j := common_suffix u v in
    if (j <? length u) && (j <? length v) then Ok (Z.of_nat (S j))
    else Raise IndexError.
Proof.
  intros Hfuel. change 1%Z with (Z.of_nat 1).
  rewrite suffix_loop_spec by lia. unfold loop_result.
  by rewrite !drop_0, Nat.add_0_l.
Qed.

End Peeling.

Section PeelingResult.
Import Strip.
#[local] Arguments Nat.ltb : simpl never.
#[local] Arguments Nat.leb : simpl never.
#[local] Arguments Nat.eqb : simpl never.

Lemma clamp_nat (l : bytes) (n : nat) :
  Py.clamp l (Z.of_nat n) = n `min` length l.
Proof.
  unfold Py.clamp, Py.len.
  replace (Z.of_nat n <? 0)%Z with false by by_order. lia.
Qed.

Lemma bind_Ok {B C} (b : B) (k : B -> res C) : Ok b ≫= k = k b.
Proof. reflexivity. Qed.

(** The pieces that the peeling cuts out, from the lengths [p] of the
    common prefix and [s] of the common suffix. *)
Definition pieces (u v : bytes) : cores :=
  let p := common_prefix u v in
  let s := common_suffix u v in
  {| prefix := take p u;
     suffix := drop (length u - s) u;
     u_core := take (length u - s - p) (drop p u);
     v_core := take (length v - s - p) (drop p v) |}.

Lemma common_suffix_le (u v : bytes) :
  common_suffix u v <= length u /\ common_suffix u v <= length v.
Proof.
  pose proof (common_prefix_le (reverse u) (reverse v)) as H.
  by rewrite !length_reverse in H.
Qed.

Lemma core_slice (w u : bytes) (p s : nat) :
  p <= length u -> s <= length u -> length u <= length w ->
  Py.slice w (Py.len (take p u))
    (Py.len w - Py.len (drop (length u - s) u))
  = take (length w - s - p) (drop p w).
Proof.
  intros Hp Hs Hw. unfold Py.slice, Py.len.
  rewrite length_take, length_drop.
  replace (Z.of_nat (length w) - Z.of_nat (length u - (length u - s)))%Z
    with (Z.of_nat (length w - s)) by lia.
  rewrite !clamp_nat. f_equal; [lia|]. f_equal. lia.
Qed.

Lemma glue_pieces (w : bytes) (p s : nat) :
  p + s <= length w ->
  take p w ++ take (length w - s - p) (drop p w) ++ drop (length w - s) w = w.
Proof.
  intros H. rewrite app_assoc, take_take_drop.
  replace (p + (length w - s - p)) with (length w - s) by lia.
  apply take_drop.
Qed.

(** Lines 168 to 198 in closed form, for [u] no longer than [v] (as the
    order of [sort_key] makes them). *)
Lemma strip_spec (u v : bytes) :
  length u <= length v ->
  strip (enough u) u v
  = if Py.startswith v u then Raise AssertionError
    else if common_suffix u v =? length u then Raise IndexError
    else if length u <? common_prefix u v + common_suffix u v
         then Raise AssertionError
    else Ok (pieces u v).
Proof.
  intros Hlen. unfold strip, enough.
  destruct (Py.startswith v u) eqn:Hsw; [reflexivity|].
  cbn [negb assert]. rewrite bind_Ok.
  pose proof (common_prefix_le u v) as [Hpu Hpv].
  pose proof (common_suffix_le u v) as [Hsu Hsv].
  assert (Hp : common_prefix u v < length u).
  { destruct (decide (common_prefix u v = length u)) as [He|He]; [|lia].
    apply startswith_prefix in He. congruence. }
  rewrite prefix_loop_start by lia. cbv zeta.
  replace (common_prefix u v <? length u) with true by by_order.
  replace (common_prefix u v <? length v) with true by by_order.
  cbn [andb]. rewrite bind_Ok.
  unfold Py.slice_to. rewrite clamp_nat.
  replace (_ `min` _) with (common_prefix u v) by lia.
  rewrite startswith_take.
  replace (Py.startswith v (take (common_prefix u v) u)) with true
    by (rewrite common_prefix_take; symmetry; apply startswith_take).
  cbn [assert]. rewrite !bind_Ok.
  rewrite suffix_loop_start by lia. cbv zeta.
  destruct (Nat.eqb_spec (common_suffix u v) (length u)) as [He|Hne].
  { replace (common_suffix u v <? length u) with false by by_order.
    reflexivity. }
  replace (common_suffix u v <? length u) with true by by_order.
  replace (common_suffix u v <? length v) with true by by_order.
  cbn [andb]. rewrite bind_Ok.
  unfold Py.slice_from.
  replace (Py.len u + 1 - Z.of_nat (S (common_suffix u v)))%Z
    with (Z.of_nat (length u - common_suffix u v))
    by (unfold Py.len; lia).
  rewrite clamp_nat.
  replace ((length u - common_suffix u v) `min` length u)
    with (length u - common_suffix u v) by lia.
  rewrite endswith_drop.
  replace (Py.endswith v (drop (length u - common_suffix u v) u)) with true
    by (rewrite common_suffix_drop; symmetry; apply endswith_drop).
  cbn [assert]. rewrite !bind_Ok.
  rewrite (core_slice u u), (core_slice v u) by lia.
  fold (pieces u v). unfold Py.eqb.
  destruct (Nat.ltb_spec (length u)
              (common_prefix u v + common_suffix u v)) as [Hover|Hfit].
  - rewrite (bool_decide_eq_false_2 (u = _)); [reflexivity|].
    intros Heq. apply (f_equal length) in Heq.
    rewrite !length_app, !length_take, !length_drop in Heq. lia.
  - rewrite (bool_decide_eq_true_2 (u = _))
      by (symmetry; apply glue_pieces; lia).
    rewrite (bool_decide_eq_true_2 (v = _)); [reflexivity|].
    rewrite (common_prefix_take u v), (common_suffix_drop u v).
    symmetry. apply glue_pieces. lia.
Qed.

End PeelingResult.

Section PeelingProperties.
Import Strip.
#[local] Arguments Nat.ltb : simpl never.
#[local] Arguments Nat.leb : simpl never.
#[local] Arguments Nat.eqb : simpl never.

(** [sorted] with [sort_key] puts the shorter buffer first. *)
Lemma sorted_pair_length (a b u v : bytes) :
  sorted_pair a b = (u, v) -> length u <= length v.
Proof.
  unfold sorted_pair, sort_key_ltb.
  destruct (Nat.ltb_spec (length b) (length a)) as [Hlt|Hge]; cbn [orb].
  - intros [= <- <-]. lia.
  - destruct (Nat.eqb_spec (length b) (length a)) as [He|Hne]; cbn [andb].
    + destruct (lex_ltb b a); intros [= <- <-]; lia.
    + intros [= <- <-]. lia.
Qed.

Lemma common_prefix_refl (u : bytes) : common_prefix u u = length u.
Proof.
  induction u as [|a u IH]; cbn; [done|].
  rewrite bool_decide_eq_true_2 by done. by rewrite IH.
Qed.

Lemma startswith_refl (u : bytes) : Py.startswith u u = true.
Proof. apply startswith_prefix, common_prefix_refl. Qed.

Lemma common_prefix_all (u : bytes) : forall v,
  common_prefix u v = length u -> length u = length v -> u = v.
Proof.
  induction u as [|a u IH]; intros [|b v]; cbn; try done.
  case_bool_decide; [|done]. intros Hc Hl. subst. f_equal. apply IH; lia.
Qed.

Lemma head_core (w : bytes) (p n : nat) :
  head (take n (drop p w)) = if decide (0 < n) then w !! p else None.
Proof.
  rewrite head_lookup, lookup_take, lookup_drop.
  by rewrite Nat.add_0_r.
Qed.

Lemma last_core (w : bytes) (p n : nat) :
  p + n <= length w ->
  last (take n (drop p w))
  = if decide (0 < n) then w !! (p + n - 1) else None.
Proof.
  intros Hn. rewrite last_lookup, length_take, length_drop, lookup_take.
  rewrite lookup_drop.
  replace (n `min` (length w - p)) with n by lia.
  destruct n as [|n]; cbn [pred].
  - by rewrite !decide_False by lia.
  - rewrite !decide_True by lia. f_equal. lia.
Qed.

Lemma common_suffix_mismatch (u v : bytes) :
  common_suffix u v < length u -> common_suffix u v < length v ->
  u !! (length u - S (common_suffix u v))
  <> v !! (length v - S (common_suffix u v)).
Proof.
  intros Hu Hv.
  pose proof (common_prefix_mismatch (reverse u) (reverse v)) as H.
  fold (common_suffix u v) in H. rewrite !length_reverse in H.
  rewrite !reverse_lookup in H by done. by apply H.
Qed.

(** What is known when the peeling goes through. *)
Lemma strip_Ok (u v : bytes) (c : cores) :
  length u <= length v ->
  strip (enough u) u v = Ok c ->
  c = pieces u v
  /\ common_prefix u v < length u
  /\ common_suffix u v < length u
  /\ common_prefix u v + common_suffix u v <= length u
  /\ Py.startswith v u = false.
Proof.
  intros Hlen. rewrite strip_spec by done.
  destruct (Py.startswith v u) eqn:Hsw; [done|].
  destruct (Nat.eqb_spec (common_suffix u v) (length u)); [done|].
  destruct (Nat.ltb_spec (length u) (common_prefix u v + common_suffix u v));
    [done|].
  intros [= <-].
  pose proof (common_prefix_le u v) as [Hpu Hpv].
  pose proof (common_suffix_le u v) as [Hsu Hsv].
  repeat split; try done; try lia.
  destruct (decide (common_prefix u v = length u)) as [He|He]; [|lia].
  apply startswith_prefix in He. congruence.
Qed.

End PeelingProperties.

Section PeelingTheorems.
Import Strip.
#[local] Arguments Nat.ltb : simpl never.
#[local] Arguments Nat.leb : simpl never.
#[local] Arguments Nat.eqb : simpl never.

Lemma lex_ltb_irrefl (s : bytes) : lex_ltb s s = false.
Proof.
  induction s as [|a s IH]; cbn; [done|].
  rewrite IH, andb_false_r, orb_false_r. apply Nat.ltb_irrefl.
Qed.

Lemma lex_ltb_app_l (p a b : bytes) : lex_ltb (p ++ a) (p ++ b) = lex_ltb a b.
Proof.
  induction p as [|x p IH]; cbn; [done|].
  rewrite Nat.ltb_irrefl, bool_decide_eq_true_2 by done. cbn. exact IH.
Qed.

Lemma lex_ltb_app_r (s a : bytes) : forall b,
  length a = length b -> lex_ltb (a ++ s) (b ++ s) = lex_ltb a b.
Proof.
  induction a as [|x a IH]; intros [|y b] Hlen; cbn in *; try done.
  - apply lex_ltb_irrefl.
  - rewrite IH by lia. done.
Qed.

Lemma lex_ltb_asym (u : bytes) : forall v,
  lex_ltb u v = true -> lex_ltb v u = false.
Proof.
  induction u as [|a u IH]; intros [|b v]; cbn; try done.
  intros Hlt. apply orb_true_iff in Hlt as [Hlt|Hlt].
  - apply Nat.ltb_lt in Hlt.
    replace (Byte.to_nat b <? Byte.to_nat a) with false
      by (symmetry; apply Nat.ltb_ge; lia).
    rewrite bool_decide_eq_false_2; [done|].
    intros Hba. subst b. lia.
  - apply andb_true_iff in Hlt as [Hab Hlt].
    apply bool_decide_eq_true in Hab as ->.
    rewrite Nat.ltb_irrefl, (IH v Hlt). by rewrite andb_false_r.
Qed.

Lemma sort_key_ltb_asym (u v : bytes) :
  sort_key_ltb u v = true -> sort_key_ltb v u = false.
Proof.
  unfold sort_key_ltb. intros Hlt.
  apply orb_true_iff in Hlt as [Hlt|Hlt].
  - apply Nat.ltb_lt in Hlt.
    replace (length v <? length u) with false
      by (symmetry; apply Nat.ltb_ge; lia).
    replace (length v =? length u) with false
      by (symmetry; apply Nat.eqb_neq; lia).
    done.
  - apply andb_true_iff in Hlt as [Hlen Hlt]. apply Nat.eqb_eq in Hlen.
    rewrite Hlen, Nat.ltb_irrefl, (lex_ltb_asym _ _ Hlt).
    by rewrite andb_false_r.
Qed.

Lemma sorted_pair_distinct (a b u v : bytes) :
  sorted_pair a b = (u, v) -> a <> b ->
  u <> v /\ sort_key_ltb v u = false.
Proof.
  unfold sorted_pair. destruct (sort_key_ltb b a) eqn:Hlt; intros [= <- <-] Hne.
  - split; [done|]. by apply sort_key_ltb_asym.
  - split; [done|]. done.
Qed.

Lemma pieces_equal (u v : bytes) :
  common_prefix u v + common_suffix u v <= length u ->
  length u <= length v ->
  length v - common_suffix u v - common_prefix u v = 0 ->
  u = v.
Proof.
  intros Hfit Hlen Hzero.
  etrans; [symmetry;
           apply (glue_pieces u (common_prefix u v) (common_suffix u v)); lia|].
  etrans; [|apply (glue_pieces v (common_prefix u v) (common_suffix u v)); lia].
  rewrite (common_prefix_take u v), (common_suffix_drop u v).
  replace (length u - _ - _) with 0 by lia.
  by replace (length v - _ - _) with 0 by lia.
Qed.

Lemma strip_Ok_glue (u v : bytes) (c : cores) :
  length u <= length v ->
  strip (enough u) u v = Ok c ->
  u = prefix c ++ u_core c ++ suffix c
  /\ v = prefix c ++ v_core c ++ suffix c.
Proof.
  intros Hlen Hok.
  apply strip_Ok in Hok as (-> & Hp & Hs & Hfit & Hsw); [|done].
  cbn [pieces prefix suffix u_core v_core].
  split; [symmetry; apply glue_pieces; lia|].
  rewrite (common_prefix_take u v), (common_suffix_drop u v).
  symmetry. apply glue_pieces. lia.
Qed.

(** X1.  What the peeling does with the pair ordered by [sorted], in
    closed form.  The first assertion fails when [v] starts with [u];
    otherwise, when [v] ends with [u], the second loop walks off the
    front of [u] and [IndexError] is raised; otherwise, when the common
    prefix and the common suffix overlap in [u], the assertion of line
    197 fails; in every other case the loops end and the pieces are the
    common prefix, the common suffix and what lies between them. *)
Theorem peeling_outcome (a b u v : bytes) :
  sorted_pair a b = (u, v) ->
  strip (enough u) u v
  = if Py.startswith v u then Raise AssertionError
    else if Py.endswith v u then Raise IndexError
    else if length u <? common_prefix u v + common_suffix u v
         then Raise AssertionError
    else Ok {| prefix := take (common_prefix u v) u;
               suffix := drop (length u - common_suffix u v) u;
               u_core := take (length u - common_suffix u v
                               - common_prefix u v)
                           (drop (common_prefix u v) u);
               v_core := take (length v - common_suffix u v
                               - common_prefix u v)
                           (drop (common_prefix u v) v) |}.
Proof.
  intros Hsort. apply sorted_pair_length in Hsort.
  rewrite strip_spec by done.
  destruct (Py.startswith v u); [done|].
  assert (Hend : Py.endswith v u = (common_suffix u v =? length u)).
  { unfold Py.endswith.
    destruct (Nat.eqb_spec (common_suffix u v) (length u)) as [He|Hne].
    - apply startswith_prefix. fold (common_suffix u v).
      by rewrite length_reverse.
    - apply not_true_is_false. intros Hsw. apply Hne.
      apply startswith_prefix in Hsw.
      by rewrite length_reverse in Hsw. }
  rewrite Hend. done.
Qed.

(** X2.  When the peeling goes through for the pair ordered by [sorted],
    the two buffers are the prefix, their cores and the suffix, and no
    more could have been peeled: the cores differ in their first bytes and
    in their last bytes (a core may be empty, then the other is not). *)
Theorem peeling_leaves_differing_cores (a b u v : bytes) (c : cores) :
  sorted_pair a b = (u, v) ->
  strip (enough u) u v = Ok c ->
  u = prefix c ++ u_core c ++ suffix c
  /\ v = prefix c ++ v_core c ++ suffix c
  /\ head (u_core c) <> head (v_core c)
  /\ last (u_core c) <> last (v_core c)
  /\ length (prefix c) = common_prefix u v
  /\ length (suffix c) = common_suffix u v.
Proof.
  intros Hsort Hok. apply sorted_pair_length in Hsort.
  apply strip_Ok in Hok as (-> & Hp & Hs & Hfit & Hsw); [|done].
  pose proof (common_prefix_le u v) as [Hpu Hpv].
  pose proof (common_suffix_le u v) as [Hsu Hsv].
  cbn [pieces prefix suffix u_core v_core].
  split; [symmetry; apply glue_pieces; lia|].
  split.
  { rewrite (common_prefix_take u v), (common_suffix_drop u v).
    symmetry. apply glue_pieces. lia. }
  split.
  { rewrite !head_core.
    pose proof (common_prefix_mismatch u v Hp ltac:(lia)) as Hmis.
    destruct (decide (0 < length u - common_suffix u v - common_prefix u v)).
    - rewrite decide_True by lia. done.
    - destruct (decide (0 < length v - common_suffix u v
                            - common_prefix u v)) as [Hv|Hv].
      + destruct (lookup_lt_is_Some_2 v (common_prefix u v) ltac:(lia))
          as [x ->]. done.
      + exfalso.
        assert (Huv : u = v) by (apply pieces_equal; lia).
        rewrite Huv, startswith_refl in Hsw. done. }
  split.
  { rewrite !last_core by lia.
    pose proof (common_suffix_mismatch u v Hs ltac:(lia)) as Hmis.
    destruct (decide (0 < length u - common_suffix u v - common_prefix u v)).
    - rewrite decide_True by lia.
      replace (_ + _ - 1) with (length u - S (common_suffix u v)) by lia.
      replace (common_prefix u v
               + (length v - common_suffix u v - common_prefix u v) - 1)
        with (length v - S (common_suffix u v)) by lia.
      done.
    - destruct (decide (0 < length v - common_suffix u v
                            - common_prefix u v)) as [Hv|Hv].
      + destruct (lookup_lt_is_Some_2 v
                    (common_prefix u v
                     + (length v - common_suffix u v - common_prefix u v) - 1)
                    ltac:(lia)) as [x ->]. done.
      + exfalso.
        assert (Huv : u = v) by (apply pieces_equal; lia).
        rewrite Huv, startswith_refl in Hsw. done. }
  rewrite length_take, length_drop. lia.
Qed.

(** X3.  Two different buffers of one length are always peeled with
    success: the cores have one length, are not empty, and are in the
    order of [sort_key] exactly when the buffers are, so that the
    assertion of line 224 holds for the pair ordered by [sorted]. *)
Theorem peeling_succeeds_for_equal_lengths (u v : bytes) :
  length u = length v -> u <> v ->
  exists c,
    strip (enough u) u v = Ok c
    /\ u = prefix c ++ u_core c ++ suffix c
    /\ v = prefix c ++ v_core c ++ suffix c
    /\ length (u_core c) = length (v_core c)
    /\ u_core c <> []
    /\ sort_key_ltb (u_core c) (v_core c) = sort_key_ltb u v.
Proof.
  intros Hlen Hne.
  pose proof (common_prefix_le u v) as [Hpu Hpv].
  pose proof (common_suffix_le u v) as [Hsu Hsv].
  assert (Hp : common_prefix u v < length u).
  { destruct (decide (common_prefix u v = length u)) as [He|He]; [|lia].
    exfalso. apply Hne. by apply common_prefix_all. }
  assert (Hs : common_suffix u v < length u).
  { destruct (decide (common_suffix u v = length u)) as [He|He]; [|lia].
    exfalso. apply Hne. apply (inj reverse).
    apply common_prefix_all; rewrite !length_reverse; done. }
  assert (Hfit : common_prefix u v + common_suffix u v < length u).
  { destruct (decide (common_prefix u v + common_suffix u v < length u))
      as [|Hover]; [done|]. exfalso.
    apply (common_prefix_mismatch u v); [lia..|].
    pose proof (common_suffix_drop u v) as Hd. rewrite <- Hlen in Hd.
    apply (f_equal (fun l => l !! (common_prefix u v
                                   - (length u - common_suffix u v)))) in Hd.
    rewrite !lookup_drop in Hd.
    by replace (length u - common_suffix u v
                + (common_prefix u v - (length u - common_suffix u v)))
      with (common_prefix u v) in Hd by lia. }
  assert (Hok : strip (enough u) u v = Ok (pieces u v)).
  { rewrite strip_spec by lia.
    assert (Py.startswith v u = false) as ->.
    { destruct (Py.startswith v u) eqn:Hsw; [|done].
      apply startswith_prefix in Hsw. lia. }
    replace (common_suffix u v =? length u) with false by by_order.
    by replace (length u <? common_prefix u v + common_suffix u v)
      with false by by_order. }
  assert (Hu : u = prefix (pieces u v) ++ u_core (pieces u v)
                     ++ suffix (pieces u v)).
  { cbn. symmetry. apply glue_pieces. lia. }
  assert (Hv : v = prefix (pieces u v) ++ v_core (pieces u v)
                     ++ suffix (pieces u v)).
  { cbn. rewrite (common_prefix_take u v), (common_suffix_drop u v).
    symmetry. apply glue_pieces. lia. }
  assert (Hcore : length (u_core (pieces u v)) = length (v_core (pieces u v))).
  { cbn. rewrite !length_take, !length_drop. lia. }
  assert (Hfull : u_core (pieces u v) <> []).
  { cbn [pieces u_core]. intros Hnil. apply (f_equal length) in Hnil.
    rewrite length_take, length_drop in Hnil.
    change (length (@nil byte)) with 0 in Hnil. lia. }
  revert Hok Hu Hv Hcore Hfull. generalize (pieces u v).
  intros c Hok Hu Hv Hcore Hfull. exists c.
  repeat split; try done.
  unfold sort_key_ltb.
  rewrite Hcore, Hlen, !Nat.ltb_irrefl, !Nat.eqb_refl. cbn [orb andb].
  rewrite Hu, Hv. rewrite lex_ltb_app_l, lex_ltb_app_r by done. done.
Qed.

End PeelingTheorems.

(** ** What [normalize] keeps and what it never does *)

Section NormalizeInvariants.
Context {origin : Type} `{Countable origin} {DFA : Type}.
Variable repr_name : str -> str.
Variable repr_dfa : DFA -> str.
Variable base_name : str.
Variable required_successes : nat.
Variable allowed_to_update : bool.
Variable max_dfas : nat.
Variable cached_test_function : bytes -> ConjectureResult origin.

Local Abbreviation session := (@session origin _ _ DFA).
Local Abbreviation outcome := (@outcome origin _ _ DFA).
Local Abbreviation event := (@event origin DFA).
Local Abbreviation point := (@point origin).
Local Abbreviation run :=
  (Driver.run repr_name repr_dfa base_name required_successes
     allowed_to_update max_dfas cached_test_function).
Local Abbreviation step :=
  (Driver.step base_name allowed_to_update max_dfas cached_test_function).
Local Abbreviation finish := (Driver.finish repr_name repr_dfa).
Local Abbreviation normalize :=
  (Driver.normalize repr_name repr_dfa base_name required_successes
     allowed_to_update max_dfas cached_test_function).
Local Abbreviation invariant :=
  (run_invariant repr_name repr_dfa base_name required_successes
     allowed_to_update max_dfas cached_test_function).

(** Case analysis of one answer to the shrink of line 135. *)
Lemma compare_cases (attempt shrunk : ConjectureResult origin)
    (target : origin) (s : session) (P : outcome -> Prop) :
  (seen s !! target = None ->
   P (Running Seeking
        (Session (<[target := shrunk]> (seen s)) (dfas_added s)
           (found_interesting s) (consecutive_successes s)
           (failures_to_find_interesting s) (globals s)))) ->
  (forall existing, seen s !! target = Some existing ->
     buffer shrunk = buffer existing ->
     P (Running Seeking
          (Session (seen s) (dfas_added s) (found_interesting s)
             (S (consecutive_successes s))
             (failures_to_find_interesting s) (globals s)))) ->
  (forall existing u v e,
     seen s !! target = Some existing ->
     buffer shrunk <> buffer existing ->
     sorted_pair (buffer shrunk) (buffer existing) = (u, v) ->
     (e = FailedToNormalise (NotAllowedToLearn v u)
        /\ allowed_to_update = false
      \/ e = FailedToNormalise TooHardToLearn
         /\ allowed_to_update = true /\ max_dfas <= dfas_added s) ->
     P (Raised e
          (Session (seen s) (dfas_added s) (found_interesting s) 0
             (failures_to_find_interesting s) (globals s)))) ->
  (forall existing u v,
     seen s !! target = Some existing ->
     buffer shrunk <> buffer existing ->
     sorted_pair (buffer shrunk) (buffer existing) = (u, v) ->
     allowed_to_update = true -> dfas_added s < max_dfas ->
     let s1 := Session (seen s) (S (dfas_added s)) (found_interesting s) 0
                 (failures_to_find_interesting s) (globals s) in
     (forall e, Strip.strip (Strip.enough u) u v = Raise e ->
                (e = IndexError \/ e = AssertionError) -> P (Raised e s1))
     /\ (forall c, Strip.strip (Strip.enough u) u v = Ok c ->
           let valid :=
             is_valid_core cached_test_function (Strip.prefix c)
               (Strip.suffix c) target
               (has_discards shrunk || has_discards existing) in
           (sort_key_ltb (Strip.u_core c) (Strip.v_core c)
            && valid (Strip.u_core c) && valid (Strip.v_core c) = true ->
            P (Running (Learning attempt target) s1))
           /\ (sort_key_ltb (Strip.u_core c) (Strip.v_core c)
               && valid (Strip.u_core c) && valid (Strip.v_core c) = false ->
               P (Raised AssertionError s1)))) ->
  P (step (Shrinking attempt target) s (Shrunk shrunk)).
Proof.
  intros Hnew Hsame Hfail Hlearn. cbn [Driver.step]. unfold Driver.compare.
  destruct (seen s !! target) as [existing|] eqn:Hseen; [|by apply Hnew].
  case_bool_decide as Hbuf; [by eapply Hsame|].
  destruct (sorted_pair _ _) as [u v] eqn:Hsort.
  destruct (decide (allowed_to_update = true)) as [Hallow|Hallow].
  2:{ apply not_true_is_false in Hallow. rewrite Hallow. cbn [negb].
      eapply Hfail; eauto. }
  rewrite Hallow. cbn [negb dfas_added].
  destruct (Nat.leb_spec max_dfas (dfas_added s)) as [Hcap|Hcap];
    [eapply Hfail; eauto|].
  destruct (Hlearn existing u v eq_refl Hbuf Hsort Hallow Hcap)
    as [Hraise Hok].
  pose proof (strip_stops u v) as Hstop.
  pose proof (sorted_pair_length _ _ _ _ Hsort) as Hlen.
  destruct (Strip.strip (Strip.enough u) u v) as [c|e|] eqn:Hstrip; [| |done].
  - destruct (Hok c eq_refl) as [Hyes Hno].
    destruct (_ && _) eqn:Hvalid; [by apply Hyes | by apply Hno].
  - apply Hraise; [done|].
    rewrite strip_spec in Hstrip by done.
    destruct (Py.startswith v u); [injection Hstrip as <-; by right|].
    destruct (_ =? _); [injection Hstrip as <-; by left|].
    destruct (_ <? _); [injection Hstrip as <-; by right | done].
Qed.


(** The invariant principle of [run], with the test of line 117 known
    when an attempt is made. *)
Lemma run_guarded (J : outcome -> Prop) :
  (forall s e, (consecutive_successes s <? required_successes) = true ->
               J (Running Seeking s) -> J (step Seeking s e)) ->
  (forall p s e, p <> Seeking -> J (Running p s) -> J (step p s e)) ->
  (forall s, (consecutive_successes s <? required_successes) = false ->
             J (Running Seeking s) -> J (finish s)) ->
  forall script p s, J (Running p s) -> J (run script p s).
Proof.
  intros Hseek Hstep Hfinish script.
  induction script as [|e script IH]; intros p s Hs.
  - destruct p; cbn [Driver.run]; auto.
    destruct (_ <? _) eqn:Hlt; auto.
  - assert (Hgo : J (step p s e) -> J (and_then (step p s e) (run script))).
    { intros Hst. destruct (step p s e); cbn [and_then]; auto. }
    destruct p; cbn [Driver.run]; try (apply Hgo, Hstep; done).
    destruct (_ <? _) eqn:Hlt; auto.
Qed.

Lemma update_learned_dfas_writes (w w' : world DFA) :
  update_learned_dfas repr_name repr_dfa w = Ok w' ->
  SHRINKING_DFAS w' = SHRINKING_DFAS w
  /\ (w' = w \/ writes w' = S (writes w)).
Proof.
  unfold update_learned_dfas.
  destruct (Text.index_of _ _); cbn; try discriminate.
  case_bool_decide; intros [= <-]; cbn; auto.
Qed.

(** *** Counting successes, automata and writes *)

Definition file_untouched (w : world DFA) (s : session) : Prop :=
  learned_dfa_file (globals s) = learned_dfa_file w
  /\ writes (globals s) = writes w.

Definition accounted (w : world DFA) (s : session) : Prop :=
  size (SHRINKING_DFAS (globals s))
  = size (SHRINKING_DFAS w) + dfas_added s
  /\ file_untouched w s
  /\ (dfas_added s = 0 -> SHRINKING_DFAS (globals s) = SHRINKING_DFAS w).

Definition accounting (w : world DFA) (out : outcome) : Prop :=
  match out with
  | Running Seeking s =>
      consecutive_successes s <= required_successes /\ accounted w s
  | Running (Shrinking _ _) s =>
      consecutive_successes s < required_successes /\ accounted w s
  | Running (Learning _ _) s =>
      consecutive_successes s < required_successes
      /\ S (size (SHRINKING_DFAS (globals s)))
         = size (SHRINKING_DFAS w) + dfas_added s
      /\ file_untouched w s
      /\ 0 < dfas_added s
  | Returned s =>
      consecutive_successes s = required_successes
      /\ size (SHRINKING_DFAS (globals s))
         = size (SHRINKING_DFAS w) + dfas_added s
      /\ writes (globals s) <= S (writes w)
      /\ (dfas_added s = 0 -> globals s = w)
  | Raised _ s => file_untouched w s
  | Unexpected | OutOfFuel => True
  end.

Lemma normalize_accounting (w : world DFA) (script : list event) :
  accounting w (normalize w script).
Proof.
  unfold Driver.normalize. apply run_guarded.
  - intros s e Hlt [Hcs Hacc]. apply Nat.ltb_lt in Hlt.
    destruct e; cbn [Driver.step accounting]; try done.
    unfold seek. destruct (_ <? _)%Z; [destruct (_ || _)|]; cbn; try done.
    apply Hacc.
  - intros p s e Hp Hs. destruct p as [|a t|a t]; [done| |].
    + destruct e; try done. cbn [accounting] in Hs.
      destruct Hs as [Hcs Hacc]. pose proof Hacc as (Hsize & Hfile & Hzero).
      unfold accounted, file_untouched in *.
      apply compare_cases; cbn [accounting].
      * intros _. cbn. split; [lia | done].
      * intros existing _ _. cbn. split; [lia | done].
      * intros existing u v x _ _ _ _. done.
      * intros existing u v _ _ _ _ _. cbv zeta. split.
        -- intros x _ _. done.
        -- intros c _. cbv zeta. split; [|done].
           intros _. cbn. repeat split; try done; try lia; apply Hfile.
    + destruct e; try done. cbn [accounting Driver.step] in *.
      destruct Hs as (Hcs & Hsize & Hfile & Hpos).
      unfold register. destruct (_ !! _) eqn:Hfresh; cbn [accounting]; [done|].
      split; [done|]. unfold accounted, file_untouched in *. cbn.
      rewrite map_size_insert_None by done. repeat split; try lia; try apply Hfile.
  - intros s Hge [Hcs (Hsize & Hfile & Hzero)]. apply Nat.ltb_ge in Hge.
    unfold Driver.finish. destruct (Nat.ltb_spec 0 (dfas_added s)) as [Hpos|Hz].
    + destruct (update_learned_dfas _ _ _) as [w'| |] eqn:Hup;
        cbn [accounting]; try done.
      apply update_learned_dfas_writes in Hup as [Hreg Hw].
      cbn. rewrite Hreg. repeat split; try lia.
      destruct Hfile as [_ Hwr]. destruct Hw as [Hw | Hw]; [subst w' | rewrite Hw]; lia.
    + cbn [accounting]. destruct Hfile as [Hf Hwr].
      repeat split; try lia.
      intros _. specialize (Hzero ltac:(lia)).
      destruct (globals s), w; cbn in *; congruence.
  - cbn. unfold accounted, file_untouched. cbn. repeat split; lia.
Qed.

(** X4.  A call of [normalize] that returns has counted exactly
    [required_successes] successes in a row, has added exactly
    [dfas_added] automata to the registry, and has written the file at
    most once; if no automaton was added, the module state is the one the
    call started with. *)
Theorem normalize_returns_accounted (w : world DFA) (script : list event)
    (s' : session) :
  normalize w script = Returned s' ->
  consecutive_successes s' = required_successes
  /\ size (SHRINKING_DFAS (globals s'))
     = size (SHRINKING_DFAS w) + dfas_added s'
  /\ writes (globals s') <= S (writes w)
  /\ (dfas_added s' = 0 -> globals s' = w).
Proof.
  intros Hret. pose proof (normalize_accounting w script) as Hacc.
  rewrite Hret in Hacc. exact Hacc.
Qed.

(** X5.  The file is written only when [normalize] returns: as long as
    the call is running, and when it raises, whatever the exception, the
    contents of the file and the number of writes are the ones the call
    started with. *)
Theorem file_written_only_on_return (w : world DFA) (script : list event)
    (s' : session) :
  session_of (normalize w script) = Some s' ->
  (forall r, normalize w script <> Returned r) ->
  learned_dfa_file (globals s') = learned_dfa_file w
  /\ writes (globals s') = writes w.
Proof.
  intros Hs Hnot. pose proof (normalize_accounting w script) as Hacc.
  destruct (normalize w script) as [r|e s|[| |] s| |]; cbn in *;
    try discriminate; injection Hs as <-.
  - by destruct (Hnot r).
  - exact Hacc.
  - apply Hacc.
  - apply Hacc.
  - apply Hacc.
Qed.


(** *** What [normalize] raises *)

Lemma index_of_Raise (lines : list str) (x : str) (e : exn) :
  Text.index_of lines x = Raise e -> e = ValueError /\ x ∉ lines.
Proof.
  unfold Text.index_of.
  destruct (list_find _ lines) as [[j l]|] eqn:Hf; [discriminate|].
  intros [= <-]. split; [done|].
  apply list_find_None in Hf. intros Hin.
  eapply Forall_forall in Hf; [|exact Hin]. by apply Hf.
Qed.

Lemma update_learned_dfas_raises (w : world DFA) (e : exn) :
  update_learned_dfas repr_name repr_dfa w = Raise e ->
  e = ValueError /\ marker ∉ Text.splitlines (learned_dfa_file w).
Proof.
  unfold update_learned_dfas.
  destruct (Text.index_of _ _) as [i|e'|] eqn:Hi; cbn.
  - case_bool_decide; discriminate.
  - intros [= <-]. by apply index_of_Raise.
  - discriminate.
Qed.

(** The statement that raised [e], read off the session it left. *)
Definition explained (w : world DFA) (e : exn) (s : session) : Prop :=
  match e with
  | AssertionError =>
      (* line 121 *)
      found_interesting s = false
      /\ failures_to_find_interesting s = 1001 /\ dfas_added s = 0
      (* lines 168-198, 224-227 and 258 *)
      \/ allowed_to_update = true /\ 0 < dfas_added s
  | IndexError =>
      (* lines 180 and 187 *)
      allowed_to_update = true /\ 0 < dfas_added s
      /\ consecutive_successes s = 0
  | ValueError =>
      (* line 50 *)
      allowed_to_update = true /\ 0 < dfas_added s
      /\ (marker ∉ Text.splitlines (learned_dfa_file w))
      /\ required_successes <= consecutive_successes s
  | FailedToNormalise (NotAllowedToLearn v u) =>
      allowed_to_update = false /\ u <> v /\ sort_key_ltb v u = false
      /\ consecutive_successes s = 0 /\ dfas_added s = 0
  | FailedToNormalise TooHardToLearn =>
      allowed_to_update = true /\ dfas_added s = max_dfas
      /\ consecutive_successes s = 0
  end.

Definition on_track (w : world DFA) (s : session) : Prop :=
  learned_dfa_file (globals s) = learned_dfa_file w
  /\ dfas_added s <= max_dfas
  /\ (allowed_to_update = false -> dfas_added s = 0).

Definition raising (w : world DFA) (out : outcome) : Prop :=
  match out with
  | Running Seeking s =>
      on_track w s
      /\ (found_interesting s = false ->
          failures_to_find_interesting s <= 1000 /\ dfas_added s = 0)
  | Running (Shrinking _ _) s => on_track w s /\ found_interesting s = true
  | Running (Learning _ _) s =>
      on_track w s /\ found_interesting s = true
      /\ allowed_to_update = true /\ 0 < dfas_added s
  | Raised e s => explained w e s
  | Returned _ | Unexpected | OutOfFuel => True
  end.

Lemma normalize_raising (w : world DFA) (script : list event) :
  raising w (normalize w script).
Proof.
  unfold Driver.normalize. apply invariant.
  - intros p s e Hs. destruct p as [|a t|a t].
    + destruct e; try done. cbn [Driver.step raising] in *.
      destruct Hs as [Htrack Hfound]. unfold seek.
      destruct (_ <? _)%Z; [|done]. cbv zeta.
      destruct (found_interesting s) eqn:Hf; cbn [orb].
      * split; [done|]. cbn. discriminate.
      * destruct (Hfound eq_refl) as [Hfail Hadd].
        destruct (Nat.leb_spec (S (failures_to_find_interesting s)) 1000);
          cbn [raising explained].
        -- split; [done|]. intros _. cbn. split; [lia|done].
        -- left. cbn. repeat split; [lia|done].
    + destruct e; try done. cbn [raising] in Hs.
      destruct Hs as [(Hfile & Hcap & Hver) Hf].
      apply compare_cases; cbn [raising].
      * intros _. split; [done|]. cbn. intros Hff. congruence.
      * intros existing _ _. split; [done|]. cbn. intros Hff. congruence.
      * intros existing u v x _ Hne Hsort [[-> Hno]|(-> & Hyes & Hfull)];
          cbn [explained].
        -- destruct (sorted_pair_distinct _ _ _ _ Hsort Hne) as [Huv Hord].
           cbn. repeat split; auto.
        -- cbn. repeat split; [done|lia].
      * intros existing u v _ _ _ Hyes Hroom. cbv zeta. split.
        -- intros x _ [-> | ->]; cbn; [|right]; repeat split; try done; lia.
        -- intros c _. cbv zeta. split; intros _.
           ++ unfold on_track. cbn. repeat split; try done; try lia.
              congruence.
           ++ right. cbn. split; [done|lia].
    + destruct e; try done. cbn [raising Driver.step] in *.
      destruct Hs as ((Hfile & Hcap & Hver) & Hf & Hyes & Hpos).
      unfold register. destruct (_ !! _); cbn [raising explained].
      * right. done.
      * unfold on_track. cbn. done.
  - intros s Hge [(Hfile & Hcap & Hver) Hfound]. apply Nat.ltb_ge in Hge.
    unfold Driver.finish. destruct (Nat.ltb_spec 0 (dfas_added s)) as [Hpos|Hz];
      [|done].
    destruct (update_learned_dfas _ _ _) as [w'|e|] eqn:Hup;
      cbn [raising]; try done.
    apply update_learned_dfas_raises in Hup as [-> Hmark].
    cbn [explained]. rewrite <- Hfile. repeat split; try done; try lia.
    destruct (decide (allowed_to_update = true)) as [|Hno]; [done|].
    apply not_true_is_false in Hno. specialize (Hver Hno). lia.
  - cbn. unfold on_track. cbn. repeat split; intros; try done; lia.
Qed.

(** X6.  Every exception that leaves [normalize] is explained by the
    session it leaves behind.  A failed normalisation is raised for two
    distinct buffers, in verification mode and before anything was
    learnt, or when exactly [max_dfas] automata have been added.
    [IndexError] comes only from the peeling, [ValueError] only from the
    final update of a file without the marker line, both only when
    learning is allowed and an automaton has been added; an assertion
    that fails is the budget of line 121, at the 1001st failure before
    anything interesting was found, or an assertion made while
    learning. *)
Theorem normalize_raises_explained (w : world DFA) (script : list event)
    (e : exn) (s' : session) :
  normalize w script = Raised e s' ->
  match e with
  | AssertionError =>
      found_interesting s' = false
      /\ failures_to_find_interesting s' = 1001 /\ dfas_added s' = 0
      \/ allowed_to_update = true /\ 0 < dfas_added s'
  | IndexError =>
      allowed_to_update = true /\ 0 < dfas_added s'
      /\ consecutive_successes s' = 0
  | ValueError =>
      allowed_to_update = true /\ 0 < dfas_added s'
      /\ (marker ∉ Text.splitlines (learned_dfa_file w))
      /\ required_successes <= consecutive_successes s'
  | FailedToNormalise (NotAllowedToLearn v u) =>
      allowed_to_update = false /\ u <> v /\ sort_key_ltb v u = false
      /\ consecutive_successes s' = 0 /\ dfas_added s' = 0
  | FailedToNormalise TooHardToLearn =>
      allowed_to_update = true /\ dfas_added s' = max_dfas
      /\ consecutive_successes s' = 0
  end.
Proof.
  intros Hraised. pose proof (normalize_raising w script) as Hr.
  rewrite Hraised in Hr. exact Hr.
Qed.

(** *** What only grows *)

(** The registry [r'] extends [r] with names made at line 256. *)
Definition grown (r r' : gmap str DFA) : Prop :=
  r ⊆ r'
  /\ forall name d, r' !! name = Some d ->
       r !! name = Some d
       \/ exists digest, name = base_name ++ lit "-" ++ digest.

Definition growing (s : session) (out : outcome) : Prop :=
  match session_of out with
  | Some s' =>
      dom (seen s) ⊆ dom (seen s')
      /\ dfas_added s <= dfas_added s'
      /\ (found_interesting s = true -> found_interesting s' = true)
      /\ failures_to_find_interesting s <= failures_to_find_interesting s'
      /\ writes (globals s) <= writes (globals s')
      /\ grown (SHRINKING_DFAS (globals s)) (SHRINKING_DFAS (globals s'))
  | None => True
  end.

Lemma grown_refl (r : gmap str DFA) : grown r r.
Proof. split; [done|]. intros name d Hd. by left. Qed.

Lemma growing_refl (s : session) (p : point) : growing s (Running p s).
Proof.
  unfold growing. cbn. repeat split; try done. apply grown_refl.
Qed.

Lemma growing_trans (s0 s : session) (out : outcome) :
  growing s0 (Running Seeking s) -> growing s out -> growing s0 out.
Proof.
  unfold growing. cbn. destruct (session_of out) as [s'|]; [|done].
  intros (Hs1 & Ha1 & Hf1 & Hn1 & Hw1 & Hsub1 & Hnew1)
         (Hs2 & Ha2 & Hf2 & Hn2 & Hw2 & Hsub2 & Hnew2).
  repeat split; try lia; try (etrans; eassumption); auto.
  intros name d Hd. destruct (Hnew2 name d Hd) as [Hold|Hfresh]; auto.
Qed.

Lemma step_growing (p : point) (s : session) (e : event) :
  growing s (step p s e).
Proof.
  destruct p as [|a t|a t].
  - destruct e; try done. cbn [Driver.step]. unfold seek.
    destruct (_ <? _)%Z; [destruct (_ || _)|]; unfold growing; cbn;
      repeat split; try done; try lia; apply grown_refl.
  - destruct e; try done.
    apply compare_cases.
    + intros _. unfold growing. cbn. repeat split; try done.
      * apply dom_insert_subseteq.
      * apply grown_refl.
    + intros existing _ _. unfold growing. cbn.
      repeat split; try done. apply grown_refl.
    + intros existing u v x _ _ _ _. unfold growing. cbn.
      repeat split; try done. apply grown_refl.
    + intros existing u v _ _ _ _ _. cbv zeta. split.
      * intros x _ _. unfold growing. cbn.
        repeat split; try done; try lia. apply grown_refl.
      * intros c _. cbv zeta.
        split; intros _; unfold growing; cbn;
          repeat split; try done; try lia; apply grown_refl.
  - destruct e; try done. cbn [Driver.step]. unfold register.
    destruct (_ !! _) eqn:Hfresh; unfold growing; cbn.
    + repeat split; try done. apply grown_refl.
    + repeat split; try done.
      * apply dom_insert_subseteq.
      * by apply insert_subseteq.
      * intros name d Hd. apply lookup_insert_Some in Hd as [[<- _]|[_ Hd]].
        -- right. by eexists.
        -- by left.
Qed.

Lemma finish_growing (s : session) : growing s (finish s).
Proof.
  unfold Driver.finish. destruct (0 <? dfas_added s).
  - destruct (update_learned_dfas _ _ _) as [w'| |] eqn:Hup;
      unfold growing; cbn; try done.
    + apply update_learned_dfas_writes in Hup as [Hreg Hw].
      rewrite Hreg. repeat split; try done; [|apply grown_refl].
      destruct Hw as [Hw | Hw]; [subst w' | rewrite Hw]; lia.
    + repeat split; try done. apply grown_refl.
  - unfold growing. cbn. repeat split; try done. apply grown_refl.
Qed.

Lemma growing_step_trans (s0 : session) (p : point) (s : session)
    (out : outcome) :
  growing s0 (Running p s) -> growing s out -> growing s0 out.
Proof.
  intros H1 H2. apply (growing_trans s0 s); [|done]. exact H1.
Qed.

Lemma run_growing (script : list event) (p : point) (s : session) :
  growing s (run script p s).
Proof.
  apply (invariant (growing s)).
  - intros p' s' e Hs. eapply growing_step_trans; [exact Hs|].
    apply step_growing.
  - intros s' _ Hs. eapply growing_step_trans; [exact Hs|].
    apply finish_growing.
  - apply growing_refl.
Qed.

(** X7.  Whatever the engine answers and however the call ends, what
    [normalize] keeps only grows: an origin with a recorded result keeps
    one, the count of added automata and the count of failures never go
    down, [found_interesting] stays set once it is set, and no write is
    undone. *)
Theorem session_only_grows (script : list event) (p : point)
    (s s' : session) :
  session_of (run script p s) = Some s' ->
  dom (seen s) ⊆ dom (seen s')
  /\ dfas_added s <= dfas_added s'
  /\ (found_interesting s = true -> found_interesting s' = true)
  /\ failures_to_find_interesting s <= failures_to_find_interesting s'
  /\ writes (globals s) <= writes (globals s').
Proof.
  intros Hs'. pose proof (run_growing script p s) as Hg.
  unfold growing in Hg. rewrite Hs' in Hg.
  destruct Hg as (? & ? & ? & ? & ? & _). done.
Qed.

(** X8.  [normalize] never removes or replaces an entry of
    [SHRINKING_DFAS]: every entry the registry had when the call started
    is still there, with the same automaton, and every other entry has a
    name made of [base_name], a dash and a digest. *)
Theorem registry_only_grows (w : world DFA) (script : list event)
    (s' : session) :
  session_of (normalize w script) = Some s' ->
  SHRINKING_DFAS w ⊆ SHRINKING_DFAS (globals s')
  /\ forall name d, SHRINKING_DFAS (globals s') !! name = Some d ->
       SHRINKING_DFAS w !! name = Some d
       \/ exists digest, name = base_name ++ lit "-" ++ digest.
Proof.
  intros Hs'.
  pose proof (run_growing script Seeking (start_session w)) as Hg.
  unfold growing in Hg. fold (normalize w script) in Hg.
  rewrite Hs' in Hg. destruct Hg as (_ & _ & _ & _ & _ & Hg). exact Hg.
Qed.

(** *** Before the first interesting test case *)

Definition untouched (w : world DFA) (s : session) : Prop :=
  found_interesting s = false ->
  seen s = ∅ /\ dfas_added s = 0 /\ consecutive_successes s = 0
  /\ globals s = w.

Definition idle (w : world DFA) (out : outcome) : Prop :=
  match out with
  | Running Seeking s | Returned s | Raised _ s => untouched w s
  | Running _ s => found_interesting s = true
  | Unexpected | OutOfFuel => True
  end.

Lemma normalize_idle (w : world DFA) (script : list event) :
  idle w (normalize w script).
Proof.
  unfold Driver.normalize. apply invariant.
  - intros p s e Hs. destruct p as [|a t|a t].
    + destruct e; try done. cbn [Driver.step idle] in *. unfold seek.
      destruct (_ <? _)%Z; [destruct (_ || _)|]; cbn [idle]; try done.
    + destruct e; try done. cbn [idle] in Hs.
      apply compare_cases; cbn [idle]; unfold untouched; cbn.
      * intros _ Hf. congruence.
      * intros existing _ _ Hf. congruence.
      * intros existing u v x _ _ _ _ Hf. congruence.
      * intros existing u v _ _ _ _ _. split.
        -- intros x _ _ Hf. congruence.
        -- intros c _. split; [done|]. intros _ Hf. congruence.
    + destruct e; try done. cbn [Driver.step idle] in *.
      unfold register. destruct (_ !! _); cbn [idle]; [|done].
      intros Hf. congruence.
  - intros s _ Hs. cbn [idle] in Hs. unfold Driver.finish.
    destruct (Nat.ltb_spec 0 (dfas_added s)) as [Hpos|Hz]; [|done].
    destruct (update_learned_dfas _ _ _); cbn [idle]; try done.
    intros Hf. destruct (Hs Hf) as (_ & Hadd & _). cbn in *. lia.
  - done.
Qed.

(** X9.  As long as no interesting test case has been found, [normalize]
    has recorded nothing: no result, no automaton, no success, and the
    module state is the one the call started with.  This also holds when
    the call has returned or raised. *)
Theorem nothing_recorded_before_interesting (w : world DFA)
    (script : list event) (s' : session) :
  session_of (normalize w script) = Some s' ->
  found_interesting s' = false ->
  seen s' = ∅ /\ dfas_added s' = 0 /\ consecutive_successes s' = 0
  /\ globals s' = w.
Proof.
  intros Hs' Hf. pose proof (normalize_idle w script) as Hi.
  destruct (normalize w script) as [s|e s|[| |] s| |]; cbn in *;
    try discriminate; injection Hs' as <-; auto; congruence.
Qed.

(** *** When learning starts *)

(** X10.  Learning starts only from a divergence that has been checked.
    When the answer to a shrink sends [normalize] to the learner, the
    origin had a recorded result with another buffer, learning is allowed
    and the cap is not reached; the ordered pair was peeled with success,
    the cores are in the order of [sort_key], and each buffer, run
    again, is interesting for the same origin and is read back
    unchanged.  The count of added automata has gone up by one, the
    successes are back to zero, and nothing else has changed. *)
Theorem learning_starts_on_checked_cores
    (attempt shrunk attempt' : ConjectureResult origin)
    (target target' : origin) (s s' : session) :
  step (Shrinking attempt target) s (Shrunk shrunk)
  = Running (Learning attempt' target') s' ->
  exists existing u v c,
    seen s !! target = Some existing
    /\ buffer shrunk <> buffer existing
    /\ sorted_pair (buffer shrunk) (buffer existing) = (u, v)
    /\ allowed_to_update = true
    /\ dfas_added s < max_dfas
    /\ Strip.strip (Strip.enough u) u v = Ok c
    /\ u = Strip.prefix c ++ Strip.u_core c ++ Strip.suffix c
    /\ v = Strip.prefix c ++ Strip.v_core c ++ Strip.suffix c
    /\ sort_key_ltb (Strip.u_core c) (Strip.v_core c) = true
    /\ (forall b, b = u \/ b = v ->
          status (cached_test_function b) = INTERESTING
          /\ interesting_origin (cached_test_function b) = target
          /\ buffer (cached_test_function b) = b)
    /\ attempt' = attempt /\ target' = target
    /\ s' = Session (seen s) (S (dfas_added s)) (found_interesting s) 0
              (failures_to_find_interesting s) (globals s).
Proof.
  apply compare_cases; try discriminate.
  intros existing u v Hseen Hne Hsort Hyes Hroom. cbv zeta.
  split; [discriminate|]. intros c Hstrip. split; [|discriminate].
  intros Hchecked [= <- <- <-].
  apply andb_true_iff in Hchecked as [Hchecked Hv].
  apply andb_true_iff in Hchecked as [Hord Hu].
  destruct (strip_Ok_glue u v c) as [Hgu Hgv];
    [by eapply sorted_pair_length | done |].
  assert (Hvalid : forall b,
    is_valid_core cached_test_function (Strip.prefix c) (Strip.suffix c)
      target (has_discards shrunk || has_discards existing) b = true ->
    let buf := Strip.prefix c ++ b ++ Strip.suffix c in
    status (cached_test_function buf) = INTERESTING
    /\ interesting_origin (cached_test_function buf) = target
    /\ buffer (cached_test_function buf) = buf).
  { intros b Hb. unfold is_valid_core in Hb. cbv zeta in *.
    apply andb_true_iff in Hb as [Hb _].
    apply andb_true_iff in Hb as [Hb Hbuf].
    apply andb_true_iff in Hb as [Hst Hor].
    apply bool_decide_eq_true in Hbuf, Hst, Hor. done. }
  apply Hvalid in Hu, Hv. cbv zeta in Hu, Hv.
  rewrite <- Hgu in Hu. rewrite <- Hgv in Hv.
  exists existing, u, v, c. split_and!; try done.
  by intros b [-> | ->].
Qed.

End NormalizeInvariants.

(** ** Writing the file again *)

Section PersistMore.
Context {DFA : Type}.
Variable repr_name : str -> str.
Variable repr_dfa : DFA -> str.

Local Abbreviation entry := (Persist.entry repr_name repr_dfa).
Local Abbreviation new_lines := (Persist.new_lines repr_name repr_dfa).
Local Abbreviation update_learned_dfas :=
  (Persist.update_learned_dfas repr_name repr_dfa).

Lemma index_of_first (lines : list str) (x : str) (i : nat) :
  Text.index_of lines x = Ok i
  <-> lines !! i = Some x /\ (forall j, j < i -> lines !! j <> Some x).
Proof.
  split; [apply index_of_Ok|]. intros [Hi Hfirst].
  unfold Text.index_of.
  assert (Hf : list_find (fun l => l = x) lines = Some (i, x)).
  { apply list_find_Some. split; [done|]. split; [done|].
    intros j y Hj Hlt ->. by apply (Hfirst j). }
  by rewrite Hf.
Qed.

(** The position of the marker depends only on the lines up to it. *)
Lemma index_of_take (lines lines' : list str) (x : str) (i : nat) :
  Text.index_of lines x = Ok i ->
  take (i + 1) lines' = take (i + 1) lines ->
  Text.index_of lines' x = Ok i.
Proof.
  intros Hi Htake. apply index_of_first in Hi as [Hi Hfirst].
  assert (Hsame : forall j, j < i + 1 -> lines' !! j = lines !! j).
  { intros j Hj. rewrite <- (lookup_take_lt lines' (i + 1) j) by done.
    rewrite Htake. by apply lookup_take_lt. }
  apply index_of_first. split.
  - rewrite Hsame by lia. done.
  - intros j Hj. rewrite Hsame by lia. by apply Hfirst.
Qed.

(** The contents of the file after a call that returns. *)
Lemma update_learned_dfas_file (w w' : world DFA) (i : nat) :
  Text.index_of (Text.splitlines (learned_dfa_file w)) marker = Ok i ->
  update_learned_dfas w = Ok w' ->
  learned_dfa_file w'
  = Text.join (new_lines (Text.splitlines (learned_dfa_file w)) i
                 (SHRINKING_DFAS w)) ++ [10%N]
  /\ SHRINKING_DFAS w' = SHRINKING_DFAS w.
Proof.
  intros Hi. unfold Persist.update_learned_dfas. rewrite Hi. cbn.
  case_bool_decide as Hd; intros [= <-]; cbn; [done|].
  split; [by symmetry | done].
Qed.

Lemma splitlines_new_lines (lines : list str) (i : nat)
    (reg : gmap str DFA) :
  (forall kv, is_line (entry kv)) ->
  Forall is_line lines ->
  Text.splitlines (Text.join (new_lines lines i reg) ++ [10%N])
  = new_lines lines i reg.
Proof.
  intros Hentry Hlines. apply splitlines_join.
  - unfold Persist.new_lines. repeat apply Forall_app_2.
    + by apply Forall_take.
    + repeat constructor.
    + apply Forall_fmap, Forall_forall. intros kv _. apply Hentry.
    + repeat constructor.
  - unfold Persist.new_lines. destruct (take (i + 1) lines); done.
Qed.

Lemma new_lines_take (lines lines' : list str) (i : nat)
    (reg : gmap str DFA) :
  take (i + 1) lines' = take (i + 1) lines ->
  new_lines lines' i reg = new_lines lines i reg.
Proof. unfold Persist.new_lines. by intros ->. Qed.

Lemma take_new_lines (lines : list str) (i : nat) (reg : gmap str DFA) :
  i < length lines ->
  take (i + 1) (new_lines lines i reg) = take (i + 1) lines.
Proof.
  intros Hi. unfold Persist.new_lines.
  rewrite take_app_length' by (rewrite length_take; lia). done.
Qed.


(** X12.  A second call of [update_learned_dfas] changes nothing: when the
    printed entries hold no line break, the file a call leaves behind is
    the file the next call would write, so that the next call returns
    the same state without writing. *)
Theorem update_learned_dfas_idempotent (w w' : world DFA) :
  (forall kv, is_line (entry kv)) ->
  update_learned_dfas w = Ok w' ->
  update_learned_dfas w' = Ok w'.
Proof.
  intros Hentry Hup.
  destruct (Text.index_of (Text.splitlines (learned_dfa_file w)) marker)
    as [i|e|] eqn:Hi;
    [|unfold Persist.update_learned_dfas in Hup; rewrite Hi in Hup;
      discriminate..].
  pose proof (update_learned_dfas_file w w' i Hi Hup) as [Hfile Hreg].
  pose proof (index_of_Ok _ _ _ Hi) as [Hmark _].
  assert (Hlen : i < length (Text.splitlines (learned_dfa_file w)))
    by (eapply lookup_lt_Some; eauto).
  assert (Hlines : Text.splitlines (learned_dfa_file w')
                   = new_lines (Text.splitlines (learned_dfa_file w)) i
                       (SHRINKING_DFAS w)).
  { rewrite Hfile. apply splitlines_new_lines; [done|].
    apply splitlines_lines. }
  assert (Htake : take (i + 1) (Text.splitlines (learned_dfa_file w'))
                  = take (i + 1) (Text.splitlines (learned_dfa_file w))).
  { rewrite Hlines. by apply take_new_lines. }
  unfold Persist.update_learned_dfas.
  rewrite (index_of_take _ _ _ _ Hi Htake). cbn.
  rewrite (new_lines_take _ _ _ _ Htake), Hreg, <- Hfile.
  rewrite bool_decide_eq_false_2 by (intros Hne; by apply Hne). done.
Qed.

(** X13.  What stood below the marker is forgotten: two files with the
    same lines up to the marker and the same registry are left with the
    same contents, which are the lines up to the marker followed by the
    generated ones. *)
Theorem update_learned_dfas_forgets_old_entries
    (w1 w2 w1' : world DFA) (i : nat) :
  Text.index_of (Text.splitlines (learned_dfa_file w1)) marker = Ok i ->
  take (i + 1) (Text.splitlines (learned_dfa_file w2))
  = take (i + 1) (Text.splitlines (learned_dfa_file w1)) ->
  SHRINKING_DFAS w2 = SHRINKING_DFAS w1 ->
  update_learned_dfas w1 = Ok w1' ->
  exists w2',
    update_learned_dfas w2 = Ok w2'
    /\ learned_dfa_file w2' = learned_dfa_file w1'
    /\ SHRINKING_DFAS w2' = SHRINKING_DFAS w1'.
Proof.
  intros Hi Htake Hreg Hup.
  pose proof (update_learned_dfas_file w1 w1' i Hi Hup) as [Hfile1 Hreg1].
  pose proof (index_of_take _ _ _ _ Hi Htake) as Hi2.
  assert (Hex : exists w2', update_learned_dfas w2 = Ok w2').
  { unfold Persist.update_learned_dfas. rewrite Hi2. cbn.
    case_bool_decide; eauto. }
  destruct Hex as [w2' Hup2]. exists w2'. split; [done|].
  pose proof (update_learned_dfas_file w2 w2' i Hi2 Hup2) as [Hfile2 Hreg2].
  rewrite Hfile2, Hfile1, Hreg2, Hreg1, Hreg.
  by rewrite (new_lines_take _ _ _ _ Htake).
Qed.

End PersistMore.

(** ** Examples for the further properties *)

Section MoreExamples.
Import Example.
Local Open Scope nat_scope.

Let one := "001"%byte.
Let two := "002"%byte.
Let three := "003"%byte.

Lemma peeling_outcome_witness :
  let a := [one; three; three] in
  let b := [one; two; three] in
  sorted_pair a b = (b, a)
  /\ Strip.strip (Strip.enough b) b a
     = Ok {| Strip.prefix := [one]; Strip.suffix := [three];
             Strip.u_core := [two]; Strip.v_core := [three] |}.
Proof.
  intros a b.
  assert (Hsort : sorted_pair a b = (b, a)) by reflexivity.
  split; [exact Hsort|].
  rewrite (peeling_outcome a b b a Hsort). reflexivity.
Defined.

Lemma peeling_leaves_differing_cores_witness :
  let a := [one; three; three] in
  let b := [one; two; three] in
  let c := {| Strip.prefix := [one]; Strip.suffix := [three];
              Strip.u_core := [two]; Strip.v_core := [three] |} in
  sorted_pair a b = (b, a)
  /\ Strip.strip (Strip.enough b) b a = Ok c
  /\ head (Strip.u_core c) <> head (Strip.v_core c)
  /\ last (Strip.u_core c) <> last (Strip.v_core c).
Proof.
  intros a b c.
  assert (Hsort : sorted_pair a b = (b, a)) by reflexivity.
  assert (Hok : Strip.strip (Strip.enough b) b a = Ok c) by reflexivity.
  split; [exact Hsort|]. split; [exact Hok|].
  destruct (peeling_leaves_differing_cores a b b a c Hsort Hok)
    as (_ & _ & Hhead & Hlast & _).
  split; [exact Hhead | exact Hlast].
Defined.

Lemma peeling_succeeds_for_equal_lengths_witness :
  let u := [one; two; three] in
  let v := [one; three; three] in
  length u = length v /\ u <> v
  /\ exists c, Strip.strip (Strip.enough u) u v = Ok c
               /\ length (Strip.u_core c) = length (Strip.v_core c).
Proof.
  intros u v.
  assert (Hlen : length u = length v) by reflexivity.
  assert (Hne : u <> v) by discriminate.
  split; [exact Hlen|]. split; [exact Hne|].
  destruct (peeling_succeeds_for_equal_lengths u v Hlen Hne)
    as (c & Hok & _ & _ & Hcore & _).
  exists c. split; [exact Hok | exact Hcore].
Defined.

(** The answers of the engine in a call that learns one automaton. *)
Definition learning_script : list (@event nat unit) :=
  [ Attempt (found 7); Shrunk (small 7 [one; two]);
    Attempt (found 7); Shrunk (small 7 [one; three]);
    Learnt tt (lit "0123456789") (small 7 [one; two]);
    Shrunk (small 7 [one; two]) ].

(** The answers of the engine up to a divergence. *)
Definition diverging_script : list (@event nat unit) :=
  [ Attempt (found 7); Shrunk (small 7 [one; two]);
    Attempt (found 7); Shrunk (small 7 [one; three]) ].

Lemma normalize_returns_accounted_witness :
  exists s',
    normalize 1 true 10 learning_script = Returned s'
    /\ consecutive_successes s' = 1
    /\ size (SHRINKING_DFAS (globals s')) = 0 + dfas_added s'
    /\ writes (globals s') <= 1.
Proof.
  assert (Hn : exists s', normalize 1 true 10 learning_script = Returned s')
    by (eexists; vm_compute; reflexivity).
  destruct Hn as [s' Hn]. exists s'. split; [exact Hn|].
  destruct (normalize_returns_accounted (fun k => k) (fun _ => lit "D")
              (lit "learned") 1 true 10 run_buffer w0 learning_script s' Hn)
    as (Hcs & Hsize & Hwrites & _).
  split; [exact Hcs|]. split; [exact Hsize | exact Hwrites].
Defined.

Lemma file_written_only_on_return_witness :
  exists s',
    session_of (normalize 1 true 10 diverging_script) = Some s'
    /\ (forall r, normalize 1 true 10 diverging_script <> Returned r)
    /\ learned_dfa_file (globals s') = learned_dfa_file w0
    /\ writes (globals s') = 0.
Proof.
  assert (Hs : exists s',
            session_of (normalize 1 true 10 diverging_script) = Some s')
    by (eexists; vm_compute; reflexivity).
  assert (Hnot : forall r,
            normalize 1 true 10 diverging_script <> Returned r)
    by (intros r Hr; vm_compute in Hr; discriminate Hr).
  destruct Hs as [s' Hs]. exists s'.
  split; [exact Hs|]. split; [exact Hnot|].
  exact (file_written_only_on_return (fun k => k) (fun _ => lit "D")
           (lit "learned") 1 true 10 run_buffer w0 diverging_script s'
           Hs Hnot).
Defined.

Lemma normalize_raises_explained_witness :
  exists s',
    normalize 1 false 10 diverging_script
    = Raised (FailedToNormalise
                (NotAllowedToLearn [one; three] [one; two])) s'
    /\ sort_key_ltb [one; three] [one; two] = false
    /\ dfas_added s' = 0.
Proof.
  assert (Hn : exists s',
            normalize 1 false 10 diverging_script
            = Raised (FailedToNormalise
                        (NotAllowedToLearn [one; three] [one; two])) s')
    by (eexists; vm_compute; reflexivity).
  destruct Hn as [s' Hn]. exists s'. split; [exact Hn|].
  destruct (normalize_raises_explained (fun k => k) (fun _ => lit "D")
              (lit "learned") 1 false 10 run_buffer w0 diverging_script
              _ s' Hn)
    as (_ & _ & Hord & _ & Hadd).
  split; [exact Hord | exact Hadd].
Defined.

Lemma session_only_grows_witness :
  let s := Session {[ 7 := small 7 [one] ]} 0 true 0 3 w0 in
  let script := [Attempt dull; Attempt (found 9); Shrunk (small 9 [two])] in
  exists s',
    session_of (Driver.run (fun k => k) (fun _ => lit "D") (lit "learned")
                  5 false 10 run_buffer script Seeking s) = Some s'
    /\ dom (seen s) ⊆ dom (seen s')
    /\ failures_to_find_interesting s <= failures_to_find_interesting s'.
Proof.
  intros s script.
  assert (Hs : exists s',
            session_of (Driver.run (fun k => k) (fun _ => lit "D")
                          (lit "learned") 5 false 10 run_buffer script
                          Seeking s) = Some s')
    by (eexists; vm_compute; reflexivity).
  destruct Hs as [s' Hs]. exists s'. split; [exact Hs|].
  destruct (session_only_grows (fun k => k) (fun _ => lit "D")
              (lit "learned") 5 false 10 run_buffer script Seeking s s' Hs)
    as (Hseen & _ & _ & Hfail & _).
  split; [exact Hseen | exact Hfail].
Defined.

Lemma registry_only_grows_witness :
  exists s',
    session_of (normalize 1 true 10 learning_script) = Some s'
    /\ SHRINKING_DFAS w0 ⊆ SHRINKING_DFAS (globals s').
Proof.
  assert (Hs : exists s',
            session_of (normalize 1 true 10 learning_script) = Some s')
    by (eexists; vm_compute; reflexivity).
  destruct Hs as [s' Hs]. exists s'. split; [exact Hs|].
  exact (proj1 (registry_only_grows (fun k => k) (fun _ => lit "D")
                  (lit "learned") 1 true 10 run_buffer w0 learning_script
                  s' Hs)).
Defined.

Lemma nothing_recorded_before_interesting_witness :
  let s' := Session ∅ 0 false 0 2 w0 in
  session_of (normalize 1 false 10 [Attempt dull; Attempt dull]) = Some s'
  /\ found_interesting s' = false
  /\ seen s' = ∅ /\ globals s' = w0.
Proof.
  intros s'.
  assert (Hs : session_of (normalize 1 false 10
                             [Attempt dull; Attempt dull]) = Some s')
    by reflexivity.
  split; [exact Hs|]. split; [reflexivity|].
  destruct (nothing_recorded_before_interesting (fun k => k)
              (fun _ => lit "D") (lit "learned") 1 false 10 run_buffer
              w0 [Attempt dull; Attempt dull] s' Hs eq_refl)
    as (Hseen & _ & _ & Hglobals).
  split; [exact Hseen | exact Hglobals].
Defined.

Lemma learning_starts_on_checked_cores_witness :
  let s := Session {[ 7 := small 7 [one; two] ]} 0 true 0 0 w0 in
  let s' := Session {[ 7 := small 7 [one; two] ]} 1 true 0 0 w0 in
  Driver.step (lit "learned") true 10 run_buffer
    (Shrinking (found 7) 7) s (Shrunk (small 7 [one; three]))
  = Running (Learning (found 7) 7) s'
  /\ exists existing u v c,
       seen s !! 7 = Some existing
       /\ sorted_pair [one; three] (buffer existing) = (u, v)
       /\ Strip.strip (Strip.enough u) u v = Ok c
       /\ sort_key_ltb (Strip.u_core c) (Strip.v_core c) = true.
Proof.
  intros s s'.
  assert (Hstep : Driver.step (lit "learned") true 10 run_buffer
                    (Shrinking (found 7) 7) s (Shrunk (small 7 [one; three]))
                  = Running (Learning (found 7) 7) s') by reflexivity.
  split; [exact Hstep|].
  destruct (learning_starts_on_checked_cores (lit "learned") true 10
              run_buffer (found 7) (small 7 [one; three]) (found 7) 7 7
              s s' Hstep)
    as (existing & u & v & c & Hseen & _ & Hsort & _ & _ & Hok & _ & _
        & Hord & _).
  exists existing, u, v, c. repeat split; assumption.
Defined.

(** A printer of names that never prints a line break. *)
Definition plain (k : str) : str :=
  filter (fun c => Text.is_line_boundary c = false) k.

Lemma plain_is_line (k : str) : is_line (plain k).
Proof.
  unfold plain, is_line. apply Forall_forall. intros c Hc.
  by apply list_elem_of_filter in Hc as [Hc _].
Qed.

Lemma update_learned_dfas_idempotent_witness :
  exists w',
    update_learned_dfas plain (fun _ => lit "D") two_names = Ok w'
    /\ update_learned_dfas plain (fun _ => lit "D") w' = Ok w'.
Proof.
  assert (Hup : exists w',
            update_learned_dfas plain (fun _ => lit "D") two_names = Ok w')
    by (eexists; vm_compute; reflexivity).
  destruct Hup as [w' Hup]. exists w'. split; [exact Hup|].
  apply (update_learned_dfas_idempotent plain (fun _ => lit "D") two_names);
    [|exact Hup].
  intros kv. unfold Persist.entry, is_line.
  repeat apply Forall_app_2; try apply plain_is_line;
    vm_compute; repeat constructor.
Defined.

Lemma update_learned_dfas_forgets_old_entries_witness :
  let other :=
    World (SHRINKING_DFAS two_names)
      (lit "# header" ++ [10%N] ++ lit "# AUTOGENERATED BEGINS"
         ++ [10%N] ++ lit "other" ++ [10%N] ++ lit "lines") 5 in
  exists w1' w2',
    update_learned_dfas (fun k => k) (fun _ => lit "D") two_names = Ok w1'
    /\ update_learned_dfas (fun k => k) (fun _ => lit "D") other = Ok w2'
    /\ learned_dfa_file w2' = learned_dfa_file w1'.
Proof.
  intros other.
  assert (Hi : Text.index_of (Text.splitlines (learned_dfa_file two_names))
                 marker = Ok 1) by (vm_compute; reflexivity).
  assert (Htake : take (1 + 1) (Text.splitlines (learned_dfa_file other))
                  = take (1 + 1)
                      (Text.splitlines (learned_dfa_file two_names)))
    by (vm_compute; reflexivity).
  assert (Hup : exists w1',
            update_learned_dfas (fun k => k) (fun _ => lit "D") two_names
            = Ok w1')
    by (eexists; vm_compute; reflexivity).
  destruct Hup as [w1' Hup]. exists w1'.
  destruct (update_learned_dfas_forgets_old_entries (fun k => k)
              (fun _ => lit "D") two_names other w1' 1 Hi Htake eq_refl Hup)
    as (w2' & Hup2 & Hfile & _).
  exists w2'. split; [exact Hup|]. split; [exact Hup2 | exact Hfile].
Defined.

End MoreExamples.
